(** * Stepper: step runner, fallback selection, step deduplication, retrieval

    A shallow embedding of the algorithmic core of the Stepper side panel:

    - [src/modules/dedupe.js]     (tokenizer, Jaccard similarity, skip set,
                                   keyword overlap),
    - [src/modules/stepRunner.js] (the [StepRunner] class),
    - [src/modules/retrieval.js]  ([MockRetrievalProvider.search]).

    Conventions of the embedding.

    - A JavaScript string is a [string] whose characters are the code units
      U+0000..U+00FF (Latin-1).  On that range [toLowerCase], [\s] and [\w]
      are given exactly as ECMAScript defines them.
    - A JavaScript [Set] is a duplicate-free list in insertion order, which
      is the order [Array.from] and iteration observe.
    - An optional property ([article.steps], [fallback.trigger_keywords] ...)
      is an [option]; [None] stands for [undefined].
    - [new Date().toISOString()] is an extra argument [now] of the
      operations that read the clock.
    - The object held in [this.state] is a record that every method takes
      and returns. *)

From Stdlib Require Import List String Ascii Bool Arith NArith ZArith QArith Lia.
From Stdlib Require Import Sorting.Sorted Sorting.Permutation.
Import ListNotations.

Close Scope Q_scope.
Local Open Scope string_scope.
Local Open Scope list_scope.
Local Open Scope nat_scope.

(* ================================================================== *)
(** ** JavaScript string primitives *)
(* ================================================================== *)

Module JsString.

(** [\s]: TAB, LF, VT, FF, CR, SPACE and NBSP are the white space and
    line terminator code units below U+0100. *)
Definition is_space (c : ascii) : bool :=
  let n := N_of_ascii c in
  ((9 <=? n) && (n <=? 13) || (n =? 32) || (n =? 160))%N.

(** [\w] is [[A-Za-z0-9_]]. *)
Definition is_word (c : ascii) : bool :=
  let n := N_of_ascii c in
  ((48 <=? n) && (n <=? 57) || (65 <=? n) && (n <=? 90)
   || (n =? 95) || (97 <=? n) && (n <=? 122))%N.

(** Lower-casing of one code unit: [A-Z] and the Latin-1 capitals
    U+00C0..U+00DE (without the multiplication sign U+00D7) move up by 32. *)
Definition lower_char (c : ascii) : ascii :=
  let n := N_of_ascii c in
  if ((65 <=? n) && (n <=? 90)
      || (192 <=? n) && (n <=? 222) && negb (n =? 215))%N
  then ascii_of_N (n + 32) else c.

Fixpoint map_chars (f : ascii -> ascii) (s : string) : string :=
  match s with
  | EmptyString => EmptyString
  | String c s' => String (f c) (map_chars f s')
  end.

(** [s.toLowerCase()] *)
Definition toLowerCase (s : string) : string := map_chars lower_char s.

(** [s.replace(/[^\w\s]/g, ' ')] *)
Definition replace_punct (s : string) : string :=
  map_chars (fun c => if is_word c || is_space c then c else " "%char) s.

(** [s.split(/\s+/)]: every maximal run of white space is one separator;
    a separator at either end leaves an empty piece there, and the empty
    string splits into one empty piece. *)
Fixpoint split_ws (s : string) : list string :=
  match s with
  | EmptyString => [EmptyString]
  | String c s' =>
      if is_space c then
        match s' with
        | String c' _ => if is_space c' then split_ws s'
                         else EmptyString :: split_ws s'
        | EmptyString => EmptyString :: split_ws s'
        end
      else
        match split_ws s' with
        | t :: ts => String c t :: ts
        | [] => [String c EmptyString]
        end
  end.

Fixpoint startsWith (s p : string) : bool :=
  match p, s with
  | EmptyString, _ => true
  | String _ _, EmptyString => false
  | String a p', String b s' => Ascii.eqb a b && startsWith s' p'
  end.

(** [s.includes(p)] *)
Fixpoint includes (s p : string) : bool :=
  startsWith s p ||
  match s with
  | EmptyString => false
  | String _ s' => includes s' p
  end.

(** Truthiness of a string: only the empty string is falsy. *)
Definition truthy (s : string) : bool := negb (String.eqb s EmptyString).

End JsString.

(* ================================================================== *)
(** ** JavaScript [Set] *)
(* ================================================================== *)

Module JsSet.
Definition t (A : Type) : Type := list A.

Section Ops.
Context {A : Type} (eqb : A -> A -> bool).

Definition empty : t A := [].

Definition has (s : t A) (x : A) : bool := existsb (eqb x) s.

Definition add (s : t A) (x : A) : t A :=
  if has s x then s else s ++ [x].

(** [new Set(iterable)] *)
Definition of_list (l : list A) : t A := fold_left add l empty.

Definition size (s : t A) : nat := List.length s.
End Ops.
End JsSet.

(* ================================================================== *)
(** ** Data model (knowledge-base articles) *)
(* ================================================================== *)

Module Step.
Record t := mk {
  id : string;
  text : string;
  expectedResult : option string
}.
End Step.

Module Fallback.
Record t := mk {
  id : string;
  reason_category : string;
  trigger_keywords : option (list string);
  steps : option (list Step.t)
}.
End Fallback.

Module Escalation.
Record t := mk {
  when : string;
  target : string
}.
End Escalation.

Module Article.
Record t := mk {
  id : Z;
  title : option string;
  tags : option (list string);
  product : option string;
  keywords : option (list string);
  steps : option (list Step.t);
  fallbacks : option (list Fallback.t);
  escalation : option Escalation.t
}.
End Article.

(** [x || []] on an optional array *)
Definition or_nil {A : Type} (o : option (list A)) : list A :=
  match o with Some l => l | None => [] end.

(* ================================================================== *)
(** ** dedupe.js *)
(* ================================================================== *)

Module Dedupe.
Import JsString.

(** The quotient [intersection.size / union.size] of two array sizes and
    the literal [0.6] are doubles in the source.  Both are taken here as
    exact rationals: the division is correctly rounded and rounding is
    monotone, so the double comparison [similarity > 0.6] and the rational
    one can only differ when [0 < 5 * i - 3 * u] and the quotient lies
    within half an ulp of [0.6], which needs a union of more than [2^50]
    tokens.  This holds for the default threshold, at which every caller of
    the repository uses [areStepsSimilar]; for another [threshold] the
    rounded quotient may compare differently (the double nearest to 1/3 is
    not above itself, the exact 1/3 is), so statements below are made at
    [STEP_SIMILARITY_THRESHOLD]. *)
Definition STEP_SIMILARITY_THRESHOLD : Q := 6 # 10.

Definition normalizeToTokens (text : string) : list string :=
  if negb (truthy text) then []
  else filter (fun token => 0 <? String.length token)%nat
              (split_ws (replace_punct (toLowerCase text))).

Definition calculateJaccardSimilarity (tokens1 tokens2 : list string) : Q :=
  let set1 := JsSet.of_list String.eqb tokens1 in
  let set2 := JsSet.of_list String.eqb tokens2 in
  let intersection :=
    JsSet.of_list String.eqb (filter (JsSet.has String.eqb set2) set1) in
  let union := JsSet.of_list String.eqb (set1 ++ set2) in
  if JsSet.size union =? 0 then 0%Q
  else (Z.of_nat (JsSet.size intersection) # Pos.of_nat (JsSet.size union))%Q.

Definition areStepsSimilar (text1 text2 : string) (threshold : Q) : bool :=
  if String.eqb text1 text2 then true
  else
    let tokens1 := normalizeToTokens text1 in
    let tokens2 := normalizeToTokens text2 in
    let similarity := calculateJaccardSimilarity tokens1 tokens2 in
    negb (Qle_bool similarity threshold).

(** The [forEach] of [findStepsToSkip], from position [index] on. *)
Fixpoint findStepsToSkip_from (index : nat) (fallbackSteps : list Step.t)
         (completedStepTexts : list string) (stepsToSkip : JsSet.t nat)
  : JsSet.t nat :=
  match fallbackSteps with
  | [] => stepsToSkip
  | step :: rest =>
      let stepsToSkip' :=
        if existsb (fun completedText =>
                      areStepsSimilar (Step.text step) completedText
                                      STEP_SIMILARITY_THRESHOLD)
                   completedStepTexts
        then JsSet.add Nat.eqb stepsToSkip index
        else stepsToSkip in
      findStepsToSkip_from (S index) rest completedStepTexts stepsToSkip'
  end.

Definition findStepsToSkip (fallbackSteps : list Step.t)
           (completedStepTexts : list string) : JsSet.t nat :=
  findStepsToSkip_from 0 fallbackSteps completedStepTexts JsSet.empty.

Definition calculateKeywordOverlap (triggerKeywords queryTokens : list string)
  : nat :=
  if List.length triggerKeywords =? 0 then 0
  else if List.length queryTokens =? 0 then 0
  else
    let querySet := JsSet.of_list String.eqb queryTokens in
    fold_left
      (fun overlapCount keyword =>
         if JsSet.has String.eqb querySet (toLowerCase keyword)
         then S overlapCount else overlapCount)
      triggerKeywords 0.

End Dedupe.

(* ================================================================== *)
(** ** stepRunner.js *)
(* ================================================================== *)

Module StepRunner.
Import JsString Dedupe.

Record AttemptedPath := mkAttemptedPath {
  path : string;
  startedAt : string
}.

Record Failure := mkFailure {
  stepId : string;
  reasonCategory : string;
  note : option string;
  timestamp : string
}.

(** [this.state] *)
Record State := mkState {
  selectedArticleId : option Z;
  activePath : string;
  currentStepIndex : nat;
  completedStepIds : JsSet.t string;
  attemptedPaths : list AttemptedPath;
  failureHistory : list Failure;
  skippedStepsCount : nat
}.

Definition initialState : State :=
  mkState None "main" 0 JsSet.empty [] [] 0.

Definition reset (_ : State) : State := initialState.

(** [new StepRunner()] *)
Definition constructor : State := reset initialState.

(** [article.fallbacks?.find(f => f.id === this.state.activePath)] *)
Definition activeFallback (st : State) (article : Article.t)
  : option Fallback.t :=
  match Article.fallbacks article with
  | None => None
  | Some fbs => find (fun f => Fallback.id f =? activePath st)%string fbs
  end.

Definition getTotalSteps (st : State) (article : option Article.t) : nat :=
  match article with
  | None => 0
  | Some article =>
      if (activePath st =? "main")%string then
        match Article.steps article with
        | Some steps => List.length steps
        | None => 0
        end
      else
        match activeFallback st article with
        | Some {| Fallback.steps := Some steps |} => List.length steps
        | _ => 0
        end
  end.

Definition getStepsForActivePath (st : State) (article : option Article.t)
  : list Step.t :=
  match article with
  | None => []
  | Some article =>
      if (activePath st =? "main")%string then or_nil (Article.steps article)
      else
        match activeFallback st article with
        | Some fallback => or_nil (Fallback.steps fallback)
        | None => []
        end
  end.

Definition getCurrentStep (st : State) (article : option Article.t)
  : option Step.t :=
  match article with
  | None => None
  | Some _ =>
      let steps := getStepsForActivePath st article in
      if List.length steps <=? currentStepIndex st then None
      else nth_error steps (currentStepIndex st)
  end.

Record StartInfo := mkStartInfo {
  start_totalSteps : nat;
  start_currentStep : option Step.t
}.

Definition startArticle (articleId : Z) (article : option Article.t)
           (now : string) (st : State) : State * StartInfo :=
  let st := reset st in
  let st := mkState (Some articleId) "main" 0
                    (completedStepIds st)
                    (attemptedPaths st ++ [mkAttemptedPath "main" now])
                    (failureHistory st) (skippedStepsCount st) in
  (st, mkStartInfo (getTotalSteps st article) (getCurrentStep st article)).

Inductive ContinueResult :=
| ContinueDone                       (* { completed: true } *)
| ContinueNext (completed : bool) (nextStep : option Step.t)
               (currentStepIndex totalSteps : nat).

Definition continue (article : option Article.t) (st : State)
  : State * ContinueResult :=
  match getCurrentStep st article with
  | None => (st, ContinueDone)
  | Some currentStep =>
      let st := mkState (selectedArticleId st) (activePath st)
                        (S (currentStepIndex st))
                        (JsSet.add String.eqb (completedStepIds st)
                                   (Step.id currentStep))
                        (attemptedPaths st) (failureHistory st)
                        (skippedStepsCount st) in
      let steps := getStepsForActivePath st article in
      let isLastStep := List.length steps <=? currentStepIndex st in
      (st, ContinueNext isLastStep
                        (if isLastStep then None
                         else getCurrentStep st article)
                        (currentStepIndex st)
                        (getTotalSteps st article))
  end.

Inductive BackResult :=
| BackSuccess (currentStepIndex : nat)     (* { success: true, ... } *)
| BackFailure (message : string).          (* { success: false, ... } *)

Definition back (st : State) : State * BackResult :=
  if 0 <? currentStepIndex st then
    let st := mkState (selectedArticleId st) (activePath st)
                      (currentStepIndex st - 1)
                      (completedStepIds st) (attemptedPaths st)
                      (failureHistory st) (skippedStepsCount st) in
    (st, BackSuccess (currentStepIndex st))
  else (st, BackFailure "Already at first step").

Definition recordFailure (stepId reasonCategory : string)
           (note : option string) (now : string) (st : State)
  : State * Failure :=
  let failure := mkFailure stepId reasonCategory note now in
  (mkState (selectedArticleId st) (activePath st) (currentStepIndex st)
           (completedStepIds st) (attemptedPaths st)
           (failureHistory st ++ [failure]) (skippedStepsCount st),
   failure).

(** The loop
    [for (let i = 0; i < fallbackSteps.length; i++)
       if (!stepsToSkip.has(i)) { startIndex = i; break; }]
    entered at [i] with [n] iterations left. *)
Fixpoint firstNonSkipped (stepsToSkip : JsSet.t nat) (i n startIndex : nat)
  : nat :=
  match n with
  | 0 => startIndex
  | S n' =>
      if negb (JsSet.has Nat.eqb stepsToSkip i) then i
      else firstNonSkipped stepsToSkip (S i) n' startIndex
  end.

Record SwitchResult := mkSwitchResult {
  switch_totalSteps : nat;
  switch_currentStep : option Step.t;
  skippedSteps : nat
}.

Definition switchToFallback (fallbackId : string)
           (article : option Article.t) (completedStepTexts : list string)
           (now : string) (st : State) : State * SwitchResult :=
  let st := mkState (selectedArticleId st) fallbackId (currentStepIndex st)
                    (completedStepIds st)
                    (attemptedPaths st ++ [mkAttemptedPath fallbackId now])
                    (failureHistory st) (skippedStepsCount st) in
  let fallbackSteps := getStepsForActivePath st article in
  let stepsToSkip := findStepsToSkip fallbackSteps completedStepTexts in
  let startIndex :=
    firstNonSkipped stepsToSkip 0 (List.length fallbackSteps) 0 in
  let consecutiveSkipped := startIndex in
  let st := mkState (selectedArticleId st) (activePath st) startIndex
                    (completedStepIds st) (attemptedPaths st)
                    (failureHistory st) consecutiveSkipped in
  (st, mkSwitchResult (getTotalSteps st article) (getCurrentStep st article)
                      consecutiveSkipped).

(** One round of the loop of [findFallbackInArticle]. *)
Definition betterFallback (queryTokens : list string)
           (best : Fallback.t * nat) (fb : Fallback.t) : Fallback.t * nat :=
  let score :=
    calculateKeywordOverlap (or_nil (Fallback.trigger_keywords fb))
                            queryTokens in
  if snd best <? score then (fb, score) else best.

Definition findFallbackInArticle (article : Article.t)
           (reasonCategory : string) (queryTokens : list string)
  : option Fallback.t :=
  match Article.fallbacks article with
  | None => None
  | Some fallbacks =>
      if List.length fallbacks =? 0 then None
      else
        let matchingFallbacks :=
          filter (fun fb => Fallback.reason_category fb =? reasonCategory)%string
                 fallbacks in
        match matchingFallbacks with
        | [] => None
        | [fb] => Some fb
        | fb0 :: rest =>
            let bestScore :=
              calculateKeywordOverlap
                (or_nil (Fallback.trigger_keywords fb0)) queryTokens in
            Some (fst (fold_left (betterFallback queryTokens) rest
                                 (fb0, bestScore)))
        end
  end.

Fixpoint findFallbackAcrossArticles (allArticles : list Article.t)
         (reasonCategory : string) (queryTokens : list string)
         (currentArticleId : Z) : option (Article.t * Fallback.t) :=
  match allArticles with
  | [] => None
  | article :: others =>
      if (Article.id article =? currentArticleId)%Z then
        findFallbackAcrossArticles others reasonCategory queryTokens
                                   currentArticleId
      else
        match findFallbackInArticle article reasonCategory queryTokens with
        | Some fallback => Some (article, fallback)
        | None =>
            findFallbackAcrossArticles others reasonCategory queryTokens
                                       currentArticleId
        end
  end.

Inductive Selection :=
| SameArticle (fallback : Fallback.t) (article : Article.t)
| CrossArticle (fallback : Fallback.t) (article : Article.t)
| Escalate (escalation : option Escalation.t).

Definition selectFallback (currentArticle : Article.t)
           (allArticles : list Article.t) (reasonCategory : string)
           (failureNote : option string) : Selection :=
  let queryTokens :=
    normalizeToTokens
      (match failureNote with
       | Some n => if truthy n then n else ""
       | None => ""
       end) in
  match findFallbackInArticle currentArticle reasonCategory queryTokens with
  | Some fallbackInArticle => SameArticle fallbackInArticle currentArticle
  | None =>
      match findFallbackAcrossArticles allArticles reasonCategory
                                       queryTokens
                                       (Article.id currentArticle) with
      | Some (article, fallback) => CrossArticle fallback article
      | None => Escalate (Article.escalation currentArticle)
      end
  end.

(** The object returned by [getState]: as [State], the [Set] copied into
    an array. *)
Record StateView := mkStateView {
  view_selectedArticleId : option Z;
  view_activePath : string;
  view_currentStepIndex : nat;
  view_completedStepIds : list string;
  view_attemptedPaths : list AttemptedPath;
  view_failureHistory : list Failure;
  view_skippedStepsCount : nat
}.

Definition getState (st : State) : StateView :=
  mkStateView (selectedArticleId st) (activePath st) (currentStepIndex st)
              (completedStepIds st) (attemptedPaths st) (failureHistory st)
              (skippedStepsCount st).

Definition getSkippedStepsCount (st : State) : nat := skippedStepsCount st.

Definition clearSkippedStepsCount (st : State) : State :=
  mkState (selectedArticleId st) (activePath st) (currentStepIndex st)
          (completedStepIds st) (attemptedPaths st) (failureHistory st) 0.

Definition isComplete (st : State) (article : option Article.t) : bool :=
  let steps := getStepsForActivePath st article in
  List.length steps <=? currentStepIndex st.

(** *** Sequences of operations *)

Inductive Op :=
| OpStartArticle (articleId : Z) (article : option Article.t) (now : string)
| OpContinue (article : option Article.t)
| OpBack
| OpRecordFailure (stepId reasonCategory : string) (note : option string)
                  (now : string)
| OpSwitchToFallback (fallbackId : string) (article : option Article.t)
                     (completedStepTexts : list string) (now : string).

Definition step (st : State) (op : Op) : State :=
  match op with
  | OpStartArticle articleId article now =>
      fst (startArticle articleId article now st)
  | OpContinue article => fst (continue article st)
  | OpBack => fst (back st)
  | OpRecordFailure stepId reasonCategory note now =>
      fst (recordFailure stepId reasonCategory note now st)
  | OpSwitchToFallback fallbackId article completedStepTexts now =>
      fst (switchToFallback fallbackId article completedStepTexts now st)
  end.

Definition run (ops : list Op) (st : State) : State := fold_left step ops st.

(** [continue] called [n] times on the same article. *)
Fixpoint continueTimes (n : nat) (article : option Article.t) (st : State)
  : State :=
  match n with
  | 0 => st
  | S n' => continueTimes n' article (fst (continue article st))
  end.

End StepRunner.

(* ================================================================== *)
(** ** retrieval.js *)
(* ================================================================== *)

Module Retrieval.
Import JsString.

Record MatchInfo := mkMatchInfo {
  tagMatches : list string;
  productMatch : bool;
  titleMatch : bool;
  keywordMatches : list string
}.

Record RetrievalResult := mkResult {
  article : Article.t;
  score : Z;
  matchInfo : MatchInfo
}.

(** The body of one [forEach] round over the tags (resp. keywords): the
    running score and the matches pushed so far. *)
Definition tagRound (queryTokens : list string)
           (acc : Z * list string) (tag : string) : Z * list string :=
  if existsb (fun token => includes (toLowerCase tag) token) queryTokens
  then (fst acc + 3, snd acc ++ [tag])%Z
  else acc.

Definition keywordRound (queryLower : string)
           (acc : Z * list string) (keyword : string) : Z * list string :=
  if includes queryLower (toLowerCase keyword)
  then (fst acc + 1, snd acc ++ [keyword])%Z
  else acc.

(** The callback of [this.articles.map] in [search]. *)
Definition scoreArticle (queryLower : string) (queryTokens : list string)
           (article : Article.t) : RetrievalResult :=
  let score := 0%Z in
  (* Tag matches (+3 each) *)
  let '(score, tagMatches) :=
    match Article.tags article with
    | Some tags => fold_left (tagRound queryTokens) tags (score, [])
    | None => (score, [])
    end in
  (* Product match (+2) *)
  let '(score, productMatch) :=
    match Article.product article with
    | Some product =>
        if truthy product && includes queryLower (toLowerCase product)
        then (score + 2, true)%Z else (score, false)
    | None => (score, false)
    end in
  (* Title match (+1) *)
  let '(score, titleMatch) :=
    match Article.title article with
    | Some title =>
        if truthy title && includes (toLowerCase title) queryLower
        then (score + 1, true)%Z else (score, false)
    | None => (score, false)
    end in
  (* Keyword matches (+1 each) *)
  let '(score, keywordMatches) :=
    match Article.keywords article with
    | Some keywords => fold_left (keywordRound queryLower) keywords (score, [])
    | None => (score, [])
    end in
  mkResult article score
           (mkMatchInfo tagMatches productMatch titleMatch keywordMatches).

(** The comparator [(a, b) => b.score - a.score]. *)
Definition compareResults (a b : RetrievalResult) : Z :=
  (score b - score a)%Z.

(** [Array.prototype.sort] is stable: [r], which stood before every element
    of [sorted], stays before those the comparator does not put first. *)
Fixpoint insertResult (r : RetrievalResult) (sorted : list RetrievalResult)
  : list RetrievalResult :=
  match sorted with
  | [] => [r]
  | x :: rest =>
      if (0 <? compareResults r x)%Z then x :: insertResult r rest
      else r :: x :: rest
  end.

Definition sortResults (l : list RetrievalResult) : list RetrievalResult :=
  fold_right insertResult [] l.

(** [arr.slice(0, limit)] for an integer [limit]: a negative end counts
    from the end of the array. *)
Definition slice0 {A : Type} (l : list A) (limit : Z) : list A :=
  if (limit <? 0)%Z then firstn (Z.to_nat (Z.of_nat (List.length l) + limit)) l
  else firstn (Z.to_nat limit) l.

(** [search(query, options)] on a provider holding [articles];
    [limit = None] is an [options] object without [limit]. *)
Definition search (articles : list Article.t) (query : string)
           (limit : option Z) : list RetrievalResult :=
  let limit := match limit with Some l => l | None => 3%Z end in
  let queryLower := toLowerCase query in
  let queryTokens := split_ws queryLower in
  let results := map (scoreArticle queryLower queryTokens) articles in
  slice0 (sortResults (filter (fun r => (0 <? score r)%Z) results)) limit.

(** [getArticle(id)]: [this.articles.find(a => a.id === id)], an article
    object being truthy, or [null]. *)
Definition getArticle (articles : list Article.t) (id : Z)
  : option Article.t :=
  match find (fun a => (Article.id a =? id)%Z) articles with
  | Some article => Some article
  | None => None
  end.

(** [getAllArticles()]: [[...this.articles]], a fresh array holding the same
    elements in the same order. *)
Definition getAllArticles (articles : list Article.t) : list Article.t :=
  articles.

Definition LOW_CONFIDENCE_THRESHOLD : Z := 9.

(** [isLowConfidence(results)]; [None] is a null or undefined argument. *)
Definition isLowConfidence (results : option (list RetrievalResult)) : bool :=
  match results with
  | None => true
  | Some results =>
      if List.length results =? 0 then true
      else
        match nth_error results 0 with
        | Some r => (score r <? LOW_CONFIDENCE_THRESHOLD)%Z
        | None => true
        end
  end.

End Retrieval.

(* ================================================================== *)
(** ** sidepanel.js: the failure handler *)
(* ================================================================== *)

Module SidePanel.
Import StepRunner Retrieval.

(** The texts gathered by [handleFailureSubmit] before it selects a
    fallback:
    [allSteps.forEach(s => { if (state.completedStepIds.includes(s.id))
                               completedStepTexts.push(s.text); })]
    with [allSteps = currentArticle.steps || []] and [state = getState()]. *)
Definition collectCompletedStepTexts (currentArticle : Article.t)
           (state : StateView) : list string :=
  fold_left
    (fun completedStepTexts s =>
       if existsb (String.eqb (Step.id s)) (view_completedStepIds state)
       then completedStepTexts ++ [Step.text s]
       else completedStepTexts)
    (or_nil (Article.steps currentArticle)) [].

(** What [handleFailureSubmit] did, as the branch it took. *)
Inductive FailureOutcome :=
| SwitchedSameArticle (fallback : Fallback.t) (result : SwitchResult)
| SwitchedCrossArticle (fallback : Fallback.t) (result : SwitchResult)
| Escalated (escalation : option Escalation.t).

(** [handleFailureSubmit]: the runner state, the module variable
    [currentArticle] and the branch taken.  [articles] is what the
    retrieval provider holds; [reason] and [note] are the values of the two
    form fields; [now1] and [now2] are the clock readings of
    [recordFailure] and [switchToFallback].  The result is [None] when
    [step.id] is read off a null step, which throws.  Chat messages and the
    modal are display only and are not part of the model. *)
Definition handleFailureSubmit (currentArticle : Article.t)
           (articles : list Article.t) (reason note : string)
           (now1 now2 : string) (st : State)
  : option (State * Article.t * FailureOutcome) :=
  match getCurrentStep st (Some currentArticle) with
  | None => None
  | Some step =>
      let st := fst (recordFailure (Step.id step) reason (Some note) now1 st) in
      let completedStepTexts :=
        collectCompletedStepTexts currentArticle (getState st) in
      let allArticles := getAllArticles articles in
      match selectFallback currentArticle allArticles reason (Some note) with
      | SameArticle fallback _ =>
          let '(st, result) :=
            switchToFallback (Fallback.id fallback) (Some currentArticle)
                             completedStepTexts now2 st in
          Some (st, currentArticle, SwitchedSameArticle fallback result)
      | CrossArticle fallback article =>
          let currentArticle := article in
          let '(st, result) :=
            switchToFallback (Fallback.id fallback) (Some currentArticle)
                             completedStepTexts now2 st in
          Some (st, currentArticle, SwitchedCrossArticle fallback result)
      | Escalate escalation => Some (st, currentArticle, Escalated escalation)
      end
  end.

End SidePanel.

(* ================================================================== *)
(** ** Sample data (from the mock knowledge base) and sanity checks *)
(* ================================================================== *)

Module Samples.

Definition mkStep (i t : string) : Step.t := Step.mk i t None.

Definition gmail : Article.t :=
  Article.mk 1 (Some "Email Not Sending - Gmail")
    (Some ["email"; "gmail"; "delivery"]) (Some "Gmail")
    (Some ["email"; "gmail"; "not sending"; "delivery"])
    (Some [mkStep "step1" "Check the outbox for stuck emails";
           mkStep "step2"
             "Verify SMTP Server and Port Number match requirements";
           mkStep "step3"
             "Check App Password is correctly configured (if using 2FA)"])
    (Some [Fallback.mk "fallback1" "system-error"
             (Some ["smtp"; "settings"; "configuration"; "error"])
             (Some [mkStep "fb1-step1"
                      "Reset SMTP Server configuration to default (smtp.gmail.com) and verify Port Number is 587";
                    mkStep "fb1-step2"
                      "Restart email client and verify Terminal ID is logged"])])
    (Some (Escalation.mk "All steps completed without resolution"
                         "Gmail Tier 2 Support")).

Definition printer : Article.t :=
  Article.mk 7 (Some "Printer Offline")
    (Some ["printer"; "hardware"]) (Some "LaserJet")
    (Some ["printer"; "offline"])
    (Some [mkStep "p1" "Check the printer cable"])
    None
    (Some (Escalation.mk "Printer still offline" "Hardware desk")).

(** Two fallbacks of one category, as in the tie-break scenario. *)
Definition twoFallbacks : Article.t :=
  Article.mk 3 (Some "Mail server") (Some ["email"]) (Some "Outlook") None
    (Some [mkStep "s1" "Open the account settings"])
    (Some [Fallback.mk "fb-smtp" "system-error" (Some ["smtp"; "port"])
             (Some [mkStep "a1" "Open the account settings";
                    mkStep "a2" "Set the SMTP port to 587"]);
           Fallback.mk "fb-quota" "system-error" (Some ["quota"; "space"])
             (Some [mkStep "b1" "Empty the deleted items folder"])])
    (Some (Escalation.mk "Mail still failing" "Mail Tier 2")).

End Samples.

(* ================================================================== *)
(** ** Notions used in the statements *)
(* ================================================================== *)

(** *** Jaccard index, as the specification words it *)

Module Similarity.
Import JsString Dedupe.

(** Sizes of the intersection and of the union of two token sequences
    taken as sets, the way the specification words the Jaccard index:
    "size of set intersection divided by size of set union; defined as 0
    when the union is empty". *)
Definition inter_card (tokens1 tokens2 : list string) : nat :=
  List.length (nodup string_dec
                 (filter (fun x => existsb (String.eqb x) tokens2) tokens1)).

Definition union_card (tokens1 tokens2 : list string) : nat :=
  List.length (nodup string_dec (tokens1 ++ tokens2)).

Definition jaccard (tokens1 tokens2 : list string) : Q :=
  if union_card tokens1 tokens2 =? 0 then 0%Q
  else (Z.of_nat (inter_card tokens1 tokens2)
        # Pos.of_nat (union_card tokens1 tokens2))%Q.

End Similarity.

(** *** Leading skipped steps *)

Module Skipping.
Import Dedupe StepRunner.

(** The inner [for ... of] of [findStepsToSkip]: is the step similar to
    some completed text? *)
Definition similarToCompleted (completedStepTexts : list string)
           (step : Step.t) : bool :=
  existsb (fun completedText =>
             areStepsSimilar (Step.text step) completedText
                             STEP_SIMILARITY_THRESHOLD)
          completedStepTexts.

(** Number of leading steps that are similar to a completed text: the
    count stops at the first step that is not. *)
Fixpoint leadingSimilar (completedStepTexts : list string)
         (steps : list Step.t) : nat :=
  match steps with
  | [] => 0
  | step :: rest =>
      if similarToCompleted completedStepTexts step
      then S (leadingSimilar completedStepTexts rest)
      else 0
  end.

(** Steps of the path named [p], whatever the rest of the state. *)
Definition stepsOfPath (p : string) (article : option Article.t)
  : list Step.t :=
  getStepsForActivePath (mkState None p 0 JsSet.empty [] [] 0) article.

(** An article whose fallback repeats, step for step, work the user has
    already done. *)
Definition repeated : Article.t :=
  Article.mk 11 (Some "Mail client")
    (Some ["email"]) (Some "Mail") None
    (Some [Step.mk "m1" "Restart the email client" None;
           Step.mk "m2" "Check the outbox for stuck emails" None;
           Step.mk "m3" "Send a test message" None])
    (Some [Fallback.mk "fb-retry" "no-change" (Some ["retry"])
             (Some [Step.mk "r1" "Restart the email client" None;
                    Step.mk "r2" "Check the outbox for stuck emails!" None])])
    None.

End Skipping.

(** *** Candidates and scores of the fallback selector *)

Module Selection.
Import JsString Dedupe StepRunner.

(** [failureNote || ''] *)
Definition noteText (failureNote : option string) : string :=
  match failureNote with
  | Some n => if truthy n then n else ""
  | None => ""
  end.

(** The score of a candidate over the tokens that [normalizeToTokens] gives
    for the note: the number of its trigger keywords that, lower-cased, are
    one of them. *)
Definition keywordScore (failureNote : option string) (fb : Fallback.t)
  : nat :=
  List.length
    (filter (fun keyword =>
               existsb (String.eqb (toLowerCase keyword))
                       (normalizeToTokens (noteText failureNote)))
            (or_nil (Fallback.trigger_keywords fb))).

(** The current article's fallbacks of the given reason category, in the
    article's declared order. *)
Definition candidates (article : Article.t) (reasonCategory : string)
  : list Fallback.t :=
  filter (fun fb => Fallback.reason_category fb =? reasonCategory)%string
         (or_nil (Article.fallbacks article)).

(** [fb] has the highest score of [l], and is the first of [l] to have
    it. *)
Definition firstBest (score : Fallback.t -> nat) (l : list Fallback.t)
           (fb : Fallback.t) : Prop :=
  exists before after,
    l = before ++ fb :: after
    /\ (forall g, In g before -> score g < score fb)
    /\ (forall g, In g after -> score g <= score fb).

End Selection.

(** *** Abstractions of a run of the step runner *)

Module Runs.
Import StepRunner.

(** State reached from a fresh main path after the first [k] steps of
    [l] were completed. *)
Definition afterSteps (articleId : Z) (now : string) (l : list Step.t)
           (k : nat) : State :=
  mkState (Some articleId) "main" k (map Step.id (firstn k l))
          [mkAttemptedPath "main" now] [] 0.

(** The index and path abstraction of a run: the article most recently
    started and the path most recently entered. *)
Definition lastStarted (ops : list Op) : option Z :=
  fold_left (fun acc op =>
               match op with
               | OpStartArticle articleId _ _ => Some articleId
               | _ => acc
               end) ops None.

Definition lastPath (ops : list Op) : string :=
  fold_left (fun acc op =>
               match op with
               | OpStartArticle _ _ _ => "main"
               | OpSwitchToFallback fallbackId _ _ _ => fallbackId
               | _ => acc
               end) ops "main".

(** The invariant of the data model, for a corpus in which the selected
    identifier is looked up: the active path is "main" or names a
    fallback of the selected article. *)
Definition activePathResolves (corpus : list Article.t) (st : State) : Prop :=
  activePath st = "main"
  \/ exists a fb,
       In a corpus /\ selectedArticleId st = Some (Article.id a)
       /\ In fb (or_nil (Article.fallbacks a))
       /\ Fallback.id fb = activePath st.

End Runs.

(** *** Notions of the retrieval scorer *)

Module Ranking.
Import JsString Retrieval.

(** The test of the tag loop: some query token is a substring of the
    lower-cased tag. *)
Definition tagHit (queryTokens : list string) (tag : string) : bool :=
  existsb (fun token => includes (toLowerCase tag) token) queryTokens.

(** The test of the keyword loop. *)
Definition keywordHit (queryLower : string) (keyword : string) : bool :=
  includes queryLower (toLowerCase keyword).

(** Token equality between a tag and the query, both lower-cased and
    split at white space: the reading "the tag shares a token with the
    query". *)
Definition tagSharesToken (query tag : string) : bool :=
  existsb (fun t => existsb (String.eqb t) (split_ws (toLowerCase query)))
          (split_ws (toLowerCase tag)).

(** All results with a positive score, best first, before truncation. *)
Definition fullRanking (articles : list Article.t) (query : string)
  : list RetrievalResult :=
  let queryLower := toLowerCase query in
  let queryTokens := split_ws queryLower in
  sortResults
    (filter (fun r => (0 <? score r)%Z)
            (map (scoreArticle queryLower queryTokens) articles)).

Definition limitOf (limit : option Z) : Z :=
  match limit with Some l => l | None => 3%Z end.

Definition descending (r1 r2 : RetrievalResult) : Prop :=
  (score r2 <= score r1)%Z.

End Ranking.

(** *** Blank queries *)

Module Blank.
Import JsString.



End Blank.

(** *** Well-formed tokens *)

Module Tokens.
Import JsString.

Fixpoint string_forall (P : ascii -> bool) (s : string) : bool :=
  match s with
  | EmptyString => true
  | String c s' => P c && string_forall P s'
  end.

(** [[a-z0-9_]] *)
Definition is_token_char (c : ascii) : bool :=
  let n := N_of_ascii c in
  ((48 <=? n) && (n <=? 57) || (n =? 95) || (97 <=? n) && (n <=? 122))%N.

(** A non-empty string of lower-case letters, digits and underscores. *)
Definition token_ok (t : string) : bool :=
  negb (String.eqb t EmptyString) && string_forall is_token_char t.

End Tokens.

(** *** Runs on one article, and what a run has recorded *)

Module Histories.
Import StepRunner.

(** The operation is given [article] wherever it takes an article. *)
Definition opOn (article : Article.t) (op : Op) : Prop :=
  match op with
  | OpStartArticle _ a _ => a = Some article
  | OpContinue a => a = Some article
  | OpSwitchToFallback _ a _ _ => a = Some article
  | OpBack => True
  | OpRecordFailure _ _ _ _ => True
  end.

Definition notStart (op : Op) : Prop :=
  match op with
  | OpStartArticle _ _ _ => False
  | _ => True
  end.

(** The failures recorded since the article was last started. *)
Definition recordedSinceStart (ops : list Op) : list Failure :=
  fold_left (fun acc op =>
               match op with
               | OpStartArticle _ _ _ => []
               | OpRecordFailure stepId reasonCategory note now =>
                   acc ++ [mkFailure stepId reasonCategory note now]
               | _ => acc
               end) ops [].

(** Identifiers of the fallbacks of an article. *)
Definition fallbackIds (article : Article.t) : list string :=
  map Fallback.id (or_nil (Article.fallbacks article)).

(** The identifiers of the steps that were the current step at a call of
    [continue], in call order, for the operations [ops] run from [st]. *)
Fixpoint continuedIds (ops : list Op) (st : State) : list string :=
  match ops with
  | [] => []
  | op :: rest =>
      match op with
      | OpContinue article =>
          match getCurrentStep st article with
          | Some s => [Step.id s]
          | None => []
          end
      | _ => []
      end ++ continuedIds rest (step st op)
  end.

(** Every [startArticle] is given an article of the corpus under its own
    identifier, and every [switchToFallback] names a fallback of the
    article started last ([cur], none before the first start). *)
Fixpoint staysOnSelected (corpus : list Article.t) (cur : option Article.t)
         (ops : list Op) : Prop :=
  match ops with
  | [] => True
  | OpStartArticle articleId a _ :: rest =>
      exists x, a = Some x /\ articleId = Article.id x /\ In x corpus
                /\ staysOnSelected corpus (Some x) rest
  | OpSwitchToFallback fallbackId _ _ _ :: rest =>
      (exists x, cur = Some x /\ In fallbackId (fallbackIds x))
      /\ staysOnSelected corpus cur rest
  | _ :: rest => staysOnSelected corpus cur rest
  end.

End Histories.

(** *** The tokenizer as the specification words it *)

Module SpecText.
Import JsString.

(** A letter or a digit: [[A-Za-z0-9]]. *)
Definition is_alphanumeric (c : ascii) : bool :=
  let n := N_of_ascii c in
  ((48 <=? n) && (n <=? 57) || (65 <=? n) && (n <=? 90)
   || (97 <=? n) && (n <=? 122))%N.

(** "lower-case, replace all non-alphanumeric characters with whitespace,
    split on whitespace, drop empty tokens". *)
Definition normalize (text : string) : list string :=
  filter (fun token => 0 <? String.length token)
         (split_ws
            (map_chars (fun c => if is_alphanumeric c then c else " "%char)
                       (toLowerCase text))).

(** "size of set intersection divided by size of set union" of the
    normalized texts, "defined as 0 when the union is empty". *)
Definition similarity (text1 text2 : string) : Q :=
  Similarity.jaccard (normalize text1) (normalize text2).

(** "the count of its trigger keywords present in the note tokens
    (case-insensitive, exact-token membership, not substring)". *)
Definition keywordScore (failureNote : string) (fb : Fallback.t) : nat :=
  List.length
    (filter (fun keyword =>
               existsb (String.eqb (toLowerCase keyword)) (normalize failureNote))
            (or_nil (Fallback.trigger_keywords fb))).

(** The text holds no underscore. *)
Fixpoint no_underscore (s : string) : bool :=
  match s with
  | EmptyString => true
  | String c s' => negb (Ascii.eqb c "_"%char) && no_underscore s'
  end.

End SpecText.

(* ================================================================== *)
(** ** Sanity checks of the embedding *)
(* ================================================================== *)

Example normalize_ex :
  Dedupe.normalizeToTokens "Check  SMTP-Server, (port 587)!"
  = ["check"; "smtp"; "server"; "port"; "587"].
Proof. reflexivity. Qed.

Example split_ws_ex :
  JsString.split_ws "" = [""] /\ JsString.split_ws "  " = [""; ""]
  /\ JsString.split_ws " a  b " = [""; "a"; "b"; ""].
Proof. repeat split. Qed.

Example retrieval_ranking_ex :
  map (fun r => (Article.id (Retrieval.article r), Retrieval.score r))
      (Retrieval.search [Samples.printer; Samples.gmail]
                        "email not sending smtp" None)
  = [(1%Z, 5%Z)].
Proof. reflexivity. Qed.

Example tie_break_ex :
  StepRunner.selectFallback Samples.twoFallbacks [Samples.gmail]
                            "system-error" (Some "smtp port wrong")
  = StepRunner.SameArticle
      (Fallback.mk "fb-smtp" "system-error" (Some ["smtp"; "port"])
         (Some [Samples.mkStep "a1" "Open the account settings";
                Samples.mkStep "a2" "Set the SMTP port to 587"]))
      Samples.twoFallbacks.
Proof. reflexivity. Qed.


(* ================================================================== *)
(** ** Facts about the [Set] model *)
(* ================================================================== *)

Section JsSetFacts.
Context {A : Type} (eqb : A -> A -> bool).
Hypothesis eqb_eq : forall x y, eqb x y = true <-> x = y.

Lemma has_In (s : JsSet.t A) (x : A) :
  JsSet.has eqb s x = true <-> In x s.
Proof.
  unfold JsSet.has. rewrite existsb_exists. split.
  - intros [y [Hy He]]. apply eqb_eq in He. now subst.
  - intros H. exists x. split; [assumption | now apply eqb_eq].
Qed.

Lemma has_false_not_In (s : JsSet.t A) (x : A) :
  JsSet.has eqb s x = false <-> ~ In x s.
Proof.
  rewrite <- has_In. destruct (JsSet.has eqb s x); split; intros H;
    try reflexivity; try discriminate; try (intros H'; discriminate).
  now elim H.
Qed.

Lemma In_add (s : JsSet.t A) (x y : A) :
  In y (JsSet.add eqb s x) <-> In y s \/ y = x.
Proof.
  unfold JsSet.add. destruct (JsSet.has eqb s x) eqn:E.
  - apply has_In in E. split; [now left | intros [H | ->]; assumption].
  - rewrite in_app_iff. simpl. intuition (subst; auto).
Qed.

Lemma NoDup_add (s : JsSet.t A) (x : A) :
  NoDup s -> NoDup (JsSet.add eqb s x).
Proof.
  intros Hs. unfold JsSet.add. destruct (JsSet.has eqb s x) eqn:E; trivial.
  apply has_false_not_In in E.
  apply NoDup_app; [assumption | repeat constructor; intros [] | ].
  intros a Ha [<- | []]. exact (E Ha).
Qed.

Lemma add_fresh (s : JsSet.t A) (x : A) :
  ~ In x s -> JsSet.add eqb s x = s ++ [x].
Proof.
  intros H. apply has_false_not_In in H. unfold JsSet.add. now rewrite H.
Qed.

Lemma In_fold_add (l : list A) (acc : JsSet.t A) (y : A) :
  In y (fold_left (JsSet.add eqb) l acc) <-> In y acc \/ In y l.
Proof.
  revert acc. induction l as [| x l IH]; intros acc; simpl.
  - tauto.
  - rewrite IH, In_add. intuition (subst; auto).
Qed.

Lemma NoDup_fold_add (l : list A) (acc : JsSet.t A) :
  NoDup acc -> NoDup (fold_left (JsSet.add eqb) l acc).
Proof.
  revert acc. induction l as [| x l IH]; intros acc H; simpl; trivial.
  apply IH. now apply NoDup_add.
Qed.

Lemma In_of_list (l : list A) (y : A) :
  In y (JsSet.of_list eqb l) <-> In y l.
Proof.
  unfold JsSet.of_list. rewrite In_fold_add. simpl. tauto.
Qed.

Lemma NoDup_of_list (l : list A) : NoDup (JsSet.of_list eqb l).
Proof. apply NoDup_fold_add. constructor. Qed.

Lemma has_of_list (l : list A) (x : A) :
  JsSet.has eqb (JsSet.of_list eqb l) x = existsb (eqb x) l.
Proof.
  destruct (existsb (eqb x) l) eqn:E.
  - apply has_In, In_of_list. apply existsb_exists in E.
    destruct E as [y [Hy He]]. apply eqb_eq in He. now subst.
  - apply has_false_not_In. rewrite In_of_list. intros H.
    assert (existsb (eqb x) l = true) as E'.
    { apply existsb_exists. exists x. split; [assumption | now apply eqb_eq]. }
    congruence.
Qed.

(** The size of a set built from a list only depends on which elements
    occur in the list. *)
Lemma size_of_list_ext (l : list A) (m : list A) :
  NoDup m -> (forall y, In y m <-> In y l) ->
  JsSet.size (JsSet.of_list eqb l) = List.length m.
Proof.
  intros Hm Hiff. unfold JsSet.size. apply Permutation_length.
  apply NoDup_Permutation; [apply NoDup_of_list | assumption | ].
  intros y. rewrite In_of_list. symmetry. apply Hiff.
Qed.
End JsSetFacts.

(* ================================================================== *)
(** ** Tokenizer / similarity *)
(* ================================================================== *)

Module SimilarityFacts.
Import JsString Dedupe Similarity.

Lemma existsb_eqb_In (x : string) (l : list string) :
  existsb (String.eqb x) l = true <-> In x l.
Proof.
  rewrite existsb_exists. split.
  - intros [y [Hy He]]. apply String.eqb_eq in He. now subst.
  - intros H. exists x. split; [assumption | apply String.eqb_refl].
Qed.

Lemma intersection_size (tokens1 tokens2 : list string) :
  JsSet.size
    (JsSet.of_list String.eqb
       (filter (JsSet.has String.eqb (JsSet.of_list String.eqb tokens2))
               (JsSet.of_list String.eqb tokens1)))
  = inter_card tokens1 tokens2.
Proof.
  unfold inter_card.
  apply (size_of_list_ext String.eqb String.eqb_eq); [apply NoDup_nodup | ].
  intros y. rewrite nodup_In, !filter_In.
  rewrite (has_In String.eqb String.eqb_eq).
  rewrite !(In_of_list String.eqb String.eqb_eq), existsb_eqb_In. tauto.
Qed.

Lemma union_size (tokens1 tokens2 : list string) :
  JsSet.size
    (JsSet.of_list String.eqb
       (JsSet.of_list String.eqb tokens1 ++ JsSet.of_list String.eqb tokens2))
  = union_card tokens1 tokens2.
Proof.
  unfold union_card.
  apply (size_of_list_ext String.eqb String.eqb_eq); [apply NoDup_nodup | ].
  intros y. rewrite nodup_In, !in_app_iff.
  rewrite !(In_of_list String.eqb String.eqb_eq). tauto.
Qed.

(** The source's Jaccard computation is the set-theoretic index. *)
Lemma calculateJaccardSimilarity_jaccard (tokens1 tokens2 : list string) :
  calculateJaccardSimilarity tokens1 tokens2 = jaccard tokens1 tokens2.
Proof.
  unfold calculateJaccardSimilarity, jaccard.
  now rewrite intersection_size, union_size.
Qed.

Lemma Qle_bool_false_lt (x y : Q) : Qle_bool x y = false <-> (y < x)%Q.
Proof.
  split.
  - intros H. apply Qnot_le_lt. intros Hle.
    apply Qle_bool_iff in Hle. congruence.
  - intros H. destruct (Qle_bool x y) eqn:E; trivial.
    apply Qle_bool_iff in E. exfalso. exact (Qlt_not_le _ _ H E).
Qed.

Lemma jaccard_sym (tokens1 tokens2 : list string) :
  jaccard tokens1 tokens2 = jaccard tokens2 tokens1.
Proof.
  assert (Hi : inter_card tokens1 tokens2 = inter_card tokens2 tokens1).
  { unfold inter_card. apply Permutation_length.
    apply NoDup_Permutation; try apply NoDup_nodup.
    intros y. rewrite !nodup_In, !filter_In, !existsb_eqb_In. tauto. }
  assert (Hu : union_card tokens1 tokens2 = union_card tokens2 tokens1).
  { unfold union_card. apply Permutation_length.
    apply NoDup_Permutation; try apply NoDup_nodup.
    intros y. rewrite !nodup_In, !in_app_iff. tauto. }
  unfold jaccard. now rewrite Hi, Hu.
Qed.

(** The threshold test in whole numbers: [i / u > 6/10] is
    [3 * u < 5 * i]. *)
Lemma jaccard_above_threshold (tokens1 tokens2 : list string) :
  (STEP_SIMILARITY_THRESHOLD < jaccard tokens1 tokens2)%Q
  <-> 3 * union_card tokens1 tokens2 < 5 * inter_card tokens1 tokens2.
Proof.
  unfold jaccard, STEP_SIMILARITY_THRESHOLD.
  assert (Hle : inter_card tokens1 tokens2 <= union_card tokens1 tokens2).
  { unfold inter_card, union_card. apply NoDup_incl_length.
    - apply NoDup_nodup.
    - intros y. rewrite !nodup_In, filter_In, in_app_iff. tauto. }
  destruct (union_card tokens1 tokens2) as [| u] eqn:Eu.
  - simpl. unfold Qlt. simpl. lia.
  - change (S u =? 0) with false. cbv iota.
    unfold Qlt. cbn [Qnum Qden].
    rewrite <- Eu.
    assert (Hp : Z.pos (Pos.of_nat (union_card tokens1 tokens2))
                 = Z.of_nat (union_card tokens1 tokens2)).
    { rewrite Eu. rewrite <- Pos.of_nat_succ.
      now rewrite Zpos_P_of_succ_nat, Nat2Z.inj_succ. }
    rewrite Hp. lia.
Qed.

End SimilarityFacts.

(** With the default threshold 0.6, [areStepsSimilar a b] is true exactly
    when the raw texts are identical or the Jaccard index of the token sets
    that [normalizeToTokens] gives for them is strictly above 0.6 (an index
    of exactly 0.6 is not enough); and [areStepsSimilar x x] is true for
    every string [x]. *)
Theorem areStepsSimilar_iff_identical_or_jaccard_above (a b : string) :
  (Dedupe.areStepsSimilar a b Dedupe.STEP_SIMILARITY_THRESHOLD = true
   <-> a = b
       \/ (Dedupe.STEP_SIMILARITY_THRESHOLD
           < Similarity.jaccard (Dedupe.normalizeToTokens a)
                                     (Dedupe.normalizeToTokens b))%Q)
  /\ Dedupe.areStepsSimilar a a Dedupe.STEP_SIMILARITY_THRESHOLD = true.
Proof.
  split.
  - unfold Dedupe.areStepsSimilar.
    rewrite SimilarityFacts.calculateJaccardSimilarity_jaccard.
    destruct (String.eqb a b) eqn:E.
    + apply String.eqb_eq in E. tauto.
    + apply String.eqb_neq in E. rewrite negb_true_iff.
      rewrite SimilarityFacts.Qle_bool_false_lt. tauto.
  - unfold Dedupe.areStepsSimilar. now rewrite String.eqb_refl.
Qed.

Example jaccard_at_threshold_ex :
  Dedupe.areStepsSimilar "open the mail settings now" "open the mail settings page"
                         Dedupe.STEP_SIMILARITY_THRESHOLD = true
  /\ Dedupe.areStepsSimilar "open the mail settings" "open the mail page"
                            Dedupe.STEP_SIMILARITY_THRESHOLD = false.
Proof. split; reflexivity. Qed.

(* ================================================================== *)
(** ** Deduplication engine and [switchToFallback] *)
(* ================================================================== *)

Module SwitchFacts.
Import Dedupe StepRunner Skipping.

Lemma getStepsForActivePath_path (st : State) (article : option Article.t) :
  getStepsForActivePath st article = stepsOfPath (activePath st) article.
Proof. reflexivity. Qed.

Lemma has_add_nat (s : JsSet.t nat) (x y : nat) :
  JsSet.has Nat.eqb (JsSet.add Nat.eqb s x) y
  = JsSet.has Nat.eqb s y || (y =? x).
Proof.
  unfold JsSet.add. destruct (JsSet.has Nat.eqb s x) eqn:E.
  - destruct (Nat.eqb_spec y x) as [-> | _].
    + rewrite E. reflexivity.
    + now rewrite orb_false_r.
  - unfold JsSet.has. rewrite existsb_app. simpl. now rewrite orb_false_r.
Qed.

(** Membership in the skip set, index by index. *)
Lemma has_findStepsToSkip_from (texts : list string) (steps : list Step.t) :
  forall (k : nat) (acc : JsSet.t nat) (i : nat),
    JsSet.has Nat.eqb (findStepsToSkip_from k steps texts acc) i
    = JsSet.has Nat.eqb acc i
      || (k <=? i)
         && match nth_error steps (i - k) with
            | Some step => similarToCompleted texts step
            | None => false
            end.
Proof.
  induction steps as [| step rest IH]; intros k acc i; simpl.
  - destruct (i - k); simpl; now rewrite andb_false_r, orb_false_r.
  - rewrite IH. fold (similarToCompleted texts step).
    destruct (Nat.leb_spec (S k) i) as [Hlt | Hge].
    + replace (i - k) with (S (i - S k)) by lia. simpl.
      replace (k <=? i) with true by (symmetry; apply Nat.leb_le; lia).
      destruct (similarToCompleted texts step); trivial.
      rewrite has_add_nat.
      replace (i =? k) with false by (symmetry; apply Nat.eqb_neq; lia).
      now rewrite orb_false_r.
    + simpl. rewrite orb_false_r.
      destruct (Nat.eqb_spec i k) as [-> | Hne].
      * rewrite Nat.sub_diag, Nat.leb_refl. simpl.
        destruct (similarToCompleted texts step).
        -- rewrite has_add_nat, Nat.eqb_refl. reflexivity.
        -- now rewrite orb_false_r.
      * replace (k <=? i) with false by (symmetry; apply Nat.leb_gt; lia).
        simpl. rewrite orb_false_r.
        destruct (similarToCompleted texts step); trivial.
        rewrite has_add_nat.
        replace (i =? k) with false by (symmetry; now apply Nat.eqb_neq).
        now rewrite orb_false_r.
Qed.

Lemma has_findStepsToSkip (texts : list string) (steps : list Step.t)
      (i : nat) :
  JsSet.has Nat.eqb (findStepsToSkip steps texts) i
  = match nth_error steps i with
    | Some step => similarToCompleted texts step
    | None => false
    end.
Proof.
  unfold findStepsToSkip. rewrite has_findStepsToSkip_from.
  now rewrite Nat.sub_0_r.
Qed.

(** What the scanning loop returns: the default when every remaining
    step is skipped, else the position of the first one that is not. *)
Lemma firstNonSkipped_leading (texts : list string)
      (skip : JsSet.t nat) (d : nat) (rest : list Step.t) :
  forall i : nat,
    (forall j, j < List.length rest ->
               JsSet.has Nat.eqb skip (i + j)
               = match nth_error rest j with
                 | Some step => similarToCompleted texts step
                 | None => false
                 end) ->
    firstNonSkipped skip i (List.length rest) d
    = if leadingSimilar texts rest =? List.length rest then d
      else i + leadingSimilar texts rest.
Proof.
  induction rest as [| step rest IH]; intros i H; simpl; trivial.
  pose proof (H 0 (Nat.lt_0_succ _)) as H0.
  rewrite Nat.add_0_r in H0. simpl in H0. rewrite H0.
  destruct (similarToCompleted texts step); simpl.
  - rewrite IH.
    + destruct (leadingSimilar texts rest =? List.length rest); trivial. lia.
    + intros j Hj. replace (S i + j) with (i + S j) by lia.
      rewrite H by (simpl; lia). reflexivity.
  - lia.
Qed.

(** [switchToFallback] positions the pointer on the first step that is
    not skipped and reports the leading skipped steps, as long as some
    step of the path is not skipped; when every step of a non-empty path
    is skipped, the loop never assigns [startIndex] and the pointer and
    the count stay at 0. *)
Lemma switchToFallback_startIndex (fallbackId : string)
      (article : option Article.t) (texts : list string) (now : string)
      (st : State) :
  let steps := stepsOfPath fallbackId article in
  let st' := fst (switchToFallback fallbackId article texts now st) in
  currentStepIndex st'
  = (if leadingSimilar texts steps =? List.length steps then 0
     else leadingSimilar texts steps)
  /\ skippedStepsCount st' = currentStepIndex st'
  /\ skippedSteps (snd (switchToFallback fallbackId article texts now st))
     = currentStepIndex st'
  /\ activePath st' = fallbackId
  /\ selectedArticleId st' = selectedArticleId st
  /\ completedStepIds st' = completedStepIds st.
Proof.
  cbv zeta. unfold switchToFallback. cbn [fst snd currentStepIndex
    skippedStepsCount skippedSteps activePath selectedArticleId
    completedStepIds].
  rewrite getStepsForActivePath_path. cbn [activePath].
  repeat split.
  rewrite (firstNonSkipped_leading texts); trivial.
  intros j _. apply has_findStepsToSkip.
Qed.

End SwitchFacts.

(** C1 (the all-skipped case).  On article [repeated], with both steps of
    fallback [fb-retry] similar to a completed text, the skip set is
    [{0, 1}], yet [switchToFallback] leaves [currentStepIndex] and
    [skippedStepsCount] at 0 and [isComplete] false: the pointer is not
    moved to the length of the fallback's step list. *)
Theorem switchToFallback_all_skipped_stays_at_zero :
  let texts := ["Restart the email client";
                "Check the outbox for stuck emails"] in
  let st0 := fst (StepRunner.startArticle 11 (Some Skipping.repeated) "t0"
                                          StepRunner.constructor) in
  let st1 := StepRunner.continueTimes 2 (Some Skipping.repeated) st0 in
  let st := fst (StepRunner.switchToFallback "fb-retry"
                   (Some Skipping.repeated) texts "t1" st1) in
  Dedupe.findStepsToSkip (StepRunner.getStepsForActivePath
                            st (Some Skipping.repeated)) texts = [0; 1]
  /\ List.length (StepRunner.getStepsForActivePath
                    st (Some Skipping.repeated)) = 2
  /\ Skipping.leadingSimilar
       texts (StepRunner.getStepsForActivePath st (Some Skipping.repeated))
     = 2
  /\ StepRunner.currentStepIndex st = 0
  /\ StepRunner.skippedStepsCount st = 0
  /\ StepRunner.isComplete st (Some Skipping.repeated) = false.
Proof. vm_compute. repeat split. Qed.

(* ================================================================== *)
(** ** Fallback selector *)
(* ================================================================== *)

Module SelectFacts.
Import JsString Dedupe StepRunner Selection.

Lemma fold_count (P : string -> bool) (l : list string) (n : nat) :
  fold_left (fun overlapCount keyword =>
               if P keyword then S overlapCount else overlapCount) l n
  = n + List.length (filter P l).
Proof.
  revert n. induction l as [| k l IH]; intros n; simpl.
  - lia.
  - rewrite IH. destruct (P k); simpl; lia.
Qed.

Lemma calculateKeywordOverlap_count (triggerKeywords queryTokens : list string) :
  calculateKeywordOverlap triggerKeywords queryTokens
  = List.length
      (filter (fun keyword =>
                 existsb (String.eqb (toLowerCase keyword)) queryTokens)
              triggerKeywords).
Proof.
  unfold calculateKeywordOverlap.
  destruct triggerKeywords as [| k ks]; [reflexivity |].
  destruct queryTokens as [| q qs].
  - cbn [List.length Nat.eqb].
    induction (k :: ks) as [| x xs IH]; simpl; trivial.
  - cbn [List.length Nat.eqb]. rewrite fold_count. cbn [Nat.add].
    f_equal. apply filter_ext. intros keyword.
    apply (has_of_list String.eqb String.eqb_eq).
Qed.

Lemma overlap_keywordScore (failureNote : option string) (fb : Fallback.t) :
  calculateKeywordOverlap (or_nil (Fallback.trigger_keywords fb))
                          (normalizeToTokens (noteText failureNote))
  = keywordScore failureNote fb.
Proof. apply calculateKeywordOverlap_count. Qed.

(** The selection loop keeps the first fallback of highest overlap. *)
Lemma fold_betterFallback (queryTokens : list string) :
  let score fb :=
    calculateKeywordOverlap (or_nil (Fallback.trigger_keywords fb))
                            queryTokens in
  forall (rest seen : list Fallback.t) (best : Fallback.t),
    firstBest score seen best ->
    firstBest score (seen ++ rest)
              (fst (fold_left (betterFallback queryTokens) rest
                              (best, score best))).
Proof.
  intros score rest. induction rest as [| fb rest IH]; intros seen best Hb.
  - simpl. now rewrite app_nil_r.
  - simpl. unfold betterFallback at 2. cbn [snd]. fold (score fb).
    replace (seen ++ fb :: rest) with ((seen ++ [fb]) ++ rest)
      by (now rewrite <- app_assoc).
    destruct Hb as [before [after [Heq [Hlt Hle]]]].
    destruct (Nat.ltb_spec (score best) (score fb)) as [Hbetter | Hnot].
    + apply IH. exists seen, []. repeat split; trivial.
      * intros g Hg. subst seen. apply in_app_iff in Hg.
        destruct Hg as [Hg | [<- | Hg]]; trivial.
        -- specialize (Hlt g Hg). lia.
        -- specialize (Hle g Hg). lia.
      * intros g [].
    + apply IH. exists before, (after ++ [fb]). repeat split; trivial.
      * subst seen. now rewrite <- app_assoc.
      * intros g Hg. apply in_app_iff in Hg.
        destruct Hg as [Hg | [<- | []]]; auto.
Qed.

Lemma findFallbackInArticle_candidates (article : Article.t)
      (reasonCategory : string) (queryTokens : list string) :
  let score fb :=
    calculateKeywordOverlap (or_nil (Fallback.trigger_keywords fb))
                            queryTokens in
  match findFallbackInArticle article reasonCategory queryTokens with
  | None => candidates article reasonCategory = []
  | Some fb => firstBest score (candidates article reasonCategory) fb
  end.
Proof.
  intros score. unfold findFallbackInArticle, candidates.
  destruct (Article.fallbacks article) as [fbs |]; [| reflexivity].
  cbn [or_nil].
  destruct fbs as [| f fs]; [reflexivity |].
  cbn [List.length Nat.eqb].
  destruct (filter _ (f :: fs)) as [| fb0 [| fb1 rest]] eqn:E.
  - reflexivity.
  - exists [], []. repeat split; intros g [].
  - fold (score fb0).
    apply (fold_betterFallback queryTokens (fb1 :: rest) [fb0] fb0).
    exists [], []. repeat split; intros g [].
Qed.

Lemma findFallbackInArticle_none (article : Article.t)
      (reasonCategory : string) (queryTokens : list string) :
  (forall fb, In fb (or_nil (Article.fallbacks article)) ->
              Fallback.reason_category fb <> reasonCategory) ->
  findFallbackInArticle article reasonCategory queryTokens = None.
Proof.
  intros H.
  pose proof (findFallbackInArticle_candidates article reasonCategory
                                               queryTokens) as Hc.
  cbv zeta in Hc.
  destruct (findFallbackInArticle article reasonCategory queryTokens)
    as [fb |]; trivial.
  destruct Hc as [before [after [Heq _]]].
  assert (In fb (candidates article reasonCategory)) as Hin.
  { rewrite Heq. apply in_app_iff. right. now left. }
  unfold candidates in Hin. apply filter_In in Hin.
  destruct Hin as [Hin Hcat]. apply String.eqb_eq in Hcat.
  now elim (H fb Hin).
Qed.

Lemma findFallbackAcrossArticles_none (allArticles : list Article.t)
      (reasonCategory : string) (queryTokens : list string)
      (currentArticleId : Z) :
  (forall a fb, In a allArticles -> Article.id a <> currentArticleId ->
                In fb (or_nil (Article.fallbacks a)) ->
                Fallback.reason_category fb <> reasonCategory) ->
  findFallbackAcrossArticles allArticles reasonCategory queryTokens
                             currentArticleId = None.
Proof.
  induction allArticles as [| a others IH]; intros H; simpl; trivial.
  destruct (Z.eqb_spec (Article.id a) currentArticleId) as [Heq | Hne].
  - apply IH. intros a' fb Ha'. apply H. now right.
  - rewrite findFallbackInArticle_none.
    + apply IH. intros a' fb Ha'. apply H. now right.
    + intros fb Hfb. apply (H a fb); trivial. now left.
Qed.

End SelectFacts.

(** When two or more fallbacks of the current article have exactly the
    given reason category, [selectFallback] answers in the same-article
    tier with one of them: the candidate whose trigger keywords, lower-cased,
    occur most often among the tokens that [normalizeToTokens] gives for the
    failure note, and among candidates of that highest score the first in
    the article's declared order. *)
Theorem selectFallback_same_article_first_best
        (currentArticle : Article.t) (allArticles : list Article.t)
        (reasonCategory : string) (failureNote : option string) :
  2 <= List.length (Selection.candidates currentArticle reasonCategory) ->
  exists fb,
    StepRunner.selectFallback currentArticle allArticles reasonCategory
                              failureNote
    = StepRunner.SameArticle fb currentArticle
    /\ Selection.firstBest (Selection.keywordScore failureNote)
                             (Selection.candidates currentArticle
                                                     reasonCategory) fb.
Proof.
  intros Hlen. unfold StepRunner.selectFallback.
  fold (Selection.noteText failureNote).
  pose proof (SelectFacts.findFallbackInArticle_candidates
                currentArticle reasonCategory
                (Dedupe.normalizeToTokens (Selection.noteText failureNote)))
    as Hc.
  cbv zeta in Hc.
  destruct (StepRunner.findFallbackInArticle _ _ _) as [fb |].
  - exists fb. split; [reflexivity |].
    destruct Hc as [before [after [Heq [Hlt Hle]]]].
    exists before, after. repeat split; trivial.
    + intros g Hg. unfold Selection.keywordScore.
      rewrite <- !SelectFacts.calculateKeywordOverlap_count. now apply Hlt.
    + intros g Hg. unfold Selection.keywordScore.
      rewrite <- !SelectFacts.calculateKeywordOverlap_count. now apply Hle.
  - rewrite Hc in Hlen. simpl in Hlen. lia.
Qed.

Lemma selectFallback_same_article_first_best_witness :
  exists fb,
    StepRunner.selectFallback Samples.twoFallbacks [Samples.gmail]
                              "system-error" (Some "SMTP port wrong")
    = StepRunner.SameArticle fb Samples.twoFallbacks
    /\ Selection.firstBest
         (Selection.keywordScore (Some "SMTP port wrong"))
         (Selection.candidates Samples.twoFallbacks "system-error") fb.
Proof.
  apply (selectFallback_same_article_first_best
           Samples.twoFallbacks [Samples.gmail] "system-error"
           (Some "SMTP port wrong")).
  vm_compute. lia.
Defined.

(** C3.  When no fallback of the current article and no fallback of any
    corpus article with another identifier has the given reason category,
    [selectFallback] answers with the escalation tier, carrying the current
    article's own escalation record unchanged. *)
Theorem selectFallback_escalation
        (currentArticle : Article.t) (allArticles : list Article.t)
        (reasonCategory : string) (failureNote : option string) :
  (forall fb, In fb (or_nil (Article.fallbacks currentArticle)) ->
              Fallback.reason_category fb <> reasonCategory) ->
  (forall a fb, In a allArticles ->
                Article.id a <> Article.id currentArticle ->
                In fb (or_nil (Article.fallbacks a)) ->
                Fallback.reason_category fb <> reasonCategory) ->
  StepRunner.selectFallback currentArticle allArticles reasonCategory
                            failureNote
  = StepRunner.Escalate (Article.escalation currentArticle).
Proof.
  intros Hcur Hothers. unfold StepRunner.selectFallback.
  rewrite SelectFacts.findFallbackInArticle_none by assumption.
  now rewrite SelectFacts.findFallbackAcrossArticles_none by assumption.
Qed.

Lemma selectFallback_escalation_witness :
  StepRunner.selectFallback
    Samples.gmail [Samples.gmail; Samples.printer; Samples.twoFallbacks]
    "permission-issue" (Some "access denied")
  = StepRunner.Escalate
      (Some (Escalation.mk "All steps completed without resolution"
                           "Gmail Tier 2 Support")).
Proof.
  apply (selectFallback_escalation
           Samples.gmail [Samples.gmail; Samples.printer; Samples.twoFallbacks]
           "permission-issue" (Some "access denied")).
  - simpl. intros fb [<- | []]. discriminate.
  - simpl. intros a fb [<- | [<- | [<- | []]]] Hne; simpl.
    + intros [<- | []]. discriminate.
    + intros [].
    + intros [<- | [<- | []]]; discriminate.
Defined.

(* ================================================================== *)
(** ** Step runner: navigation *)
(* ================================================================== *)

Module RunnerFacts.
Import StepRunner Runs.

Lemma startArticle_afterSteps (articleId : Z) (article : option Article.t)
      (now : string) (st : State) (l : list Step.t) :
  fst (startArticle articleId article now st) = afterSteps articleId now l 0.
Proof. reflexivity. Qed.

Lemma firstn_succ_nth (l : list Step.t) (k : nat) (s : Step.t) :
  nth_error l k = Some s -> firstn (S k) l = firstn k l ++ [s].
Proof.
  revert k. induction l as [| x l IH]; intros [| k] H; simpl in *;
    try discriminate.
  - now inversion H.
  - f_equal. now apply IH.
Qed.

Lemma NoDup_firstn_succ (l : list Step.t) (k : nat) (s : Step.t) :
  NoDup (map Step.id l) -> nth_error l k = Some s ->
  ~ In (Step.id s) (map Step.id (firstn k l)).
Proof.
  revert k. induction l as [| x l IH]; intros [| k] Hnd H; simpl in *;
    try discriminate; try tauto.
  inversion Hnd as [| ? ? Hx Hl]; subst.
  intros [Heq | Hin].
  - apply Hx. rewrite Heq. apply in_map. eapply nth_error_In; eassumption.
  - exact (IH k Hl H Hin).
Qed.

(** One [continue] on the main path, before the end. *)
Lemma continue_afterSteps (articleId : Z) (now : string)
      (article : Article.t) (l : list Step.t) (k : nat) :
  Article.steps article = Some l ->
  NoDup (map Step.id l) ->
  k < List.length l ->
  fst (continue (Some article) (afterSteps articleId now l k))
  = afterSteps articleId now l (S k).
Proof.
  intros Hsteps Hnd Hk. unfold continue, getCurrentStep.
  unfold getStepsForActivePath. cbn [activePath afterSteps String.eqb
    Ascii.eqb Bool.eqb andb currentStepIndex].
  rewrite Hsteps. cbn [or_nil].
  replace (List.length l <=? k) with false
    by (symmetry; apply Nat.leb_gt; exact Hk).
  destruct (nth_error l k) as [s |] eqn:Hnth.
  - cbn [fst]. unfold afterSteps.
    cbn [selectedArticleId activePath currentStepIndex completedStepIds
         attemptedPaths failureHistory skippedStepsCount].
    rewrite (add_fresh String.eqb String.eqb_eq).
    + rewrite (firstn_succ_nth l k s Hnth), map_app. reflexivity.
    + now apply NoDup_firstn_succ.
  - apply nth_error_None in Hnth. lia.
Qed.

Lemma continueTimes_afterSteps (articleId : Z) (now : string)
      (article : Article.t) (l : list Step.t) :
  Article.steps article = Some l ->
  NoDup (map Step.id l) ->
  forall n k, k + n <= List.length l ->
    continueTimes n (Some article) (afterSteps articleId now l k)
    = afterSteps articleId now l (k + n).
Proof.
  intros Hsteps Hnd n. induction n as [| n IH]; intros k Hk; simpl.
  - now rewrite Nat.add_0_r.
  - rewrite (continue_afterSteps articleId now article l k Hsteps Hnd)
      by lia.
    rewrite IH by lia. f_equal. lia.
Qed.

Lemma continue_frame (article : option Article.t) (st : State) :
  selectedArticleId (fst (continue article st)) = selectedArticleId st
  /\ activePath (fst (continue article st)) = activePath st.
Proof.
  unfold continue. destruct (getCurrentStep st article); split; reflexivity.
Qed.

Lemma back_frame (st : State) :
  selectedArticleId (fst (back st)) = selectedArticleId st
  /\ activePath (fst (back st)) = activePath st.
Proof.
  unfold back. destruct (0 <? currentStepIndex st); split; reflexivity.
Qed.

Lemma step_path_article (st : State) (op : Op) :
  selectedArticleId (step st op)
  = match op with
    | OpStartArticle articleId _ _ => Some articleId
    | _ => selectedArticleId st
    end
  /\ activePath (step st op)
     = match op with
       | OpStartArticle _ _ _ => "main"
       | OpSwitchToFallback fallbackId _ _ _ => fallbackId
       | _ => activePath st
       end.
Proof.
  destruct op; simpl; try (split; reflexivity).
  - apply continue_frame.
  - apply back_frame.
Qed.

Lemma run_path_article (ops : list Op) :
  forall (st : State) (a : option Z) (p : string),
    selectedArticleId st = a -> activePath st = p ->
    selectedArticleId (run ops st)
    = fold_left (fun acc op =>
                   match op with
                   | OpStartArticle articleId _ _ => Some articleId
                   | _ => acc
                   end) ops a
    /\ activePath (run ops st)
       = fold_left (fun acc op =>
                      match op with
                      | OpStartArticle _ _ _ => "main"
                      | OpSwitchToFallback fallbackId _ _ _ => fallbackId
                      | _ => acc
                      end) ops p.
Proof.
  induction ops as [| op ops IH]; intros st a p Ha Hp; simpl.
  - now split.
  - destruct (step_path_article st op) as [Hs Hq].
    apply IH.
    + rewrite Hs. destruct op; congruence.
    + rewrite Hq. destruct op; congruence.
Qed.

Lemma lastPath_main_or_switched (ops : list Op) :
  forall p : string,
    let q := fold_left (fun acc op =>
                          match op with
                          | OpStartArticle _ _ _ => "main"
                          | OpSwitchToFallback fallbackId _ _ _ => fallbackId
                          | _ => acc
                          end) ops p in
    q = p \/ q = "main"
    \/ exists article texts now, In (OpSwitchToFallback q article texts now) ops.
Proof.
  induction ops as [| op ops IH]; intros p; simpl.
  - now left.
  - match goal with |- context [fold_left ?f ops ?x] =>
      destruct (IH x) as [H | [H | [a [t [n H]]]]] end.
    + simpl in H. rewrite H.
      destruct op; auto.
      right. right. eauto.
    + simpl in H. auto.
    + right. right. simpl in H. eauto.
Qed.

End RunnerFacts.

(** C5.  For an article whose main path is [l], with pairwise distinct step
    identifiers, [startArticle] followed by [length l] calls of [continue]
    leaves [completedStepIds] holding exactly the identifiers of [l] in the
    order of the steps (also as [getState] lists them) and [isComplete]
    true; one more [continue] returns [{completed: true}] and leaves the
    state, hence [completedStepIds] and [currentStepIndex], as it was. *)
Theorem continue_N_times_completes_all
        (articleId : Z) (article : Article.t) (now : string)
        (st0 : StepRunner.State) (l : list Step.t) :
  Article.steps article = Some l ->
  NoDup (map Step.id l) ->
  let st :=
    StepRunner.continueTimes
      (List.length l) (Some article)
      (fst (StepRunner.startArticle articleId (Some article) now st0)) in
  StepRunner.completedStepIds st = map Step.id l
  /\ StepRunner.view_completedStepIds (StepRunner.getState st) = map Step.id l
  /\ StepRunner.currentStepIndex st = List.length l
  /\ StepRunner.isComplete st (Some article) = true
  /\ StepRunner.continue (Some article) st = (st, StepRunner.ContinueDone).
Proof.
  intros Hsteps Hnd st. subst st.
  rewrite (RunnerFacts.startArticle_afterSteps articleId (Some article) now
                                               st0 l).
  rewrite (RunnerFacts.continueTimes_afterSteps articleId now article l
             Hsteps Hnd (List.length l) 0) by lia.
  cbn [Nat.add]. unfold Runs.afterSteps.
  rewrite firstn_all.
  unfold StepRunner.isComplete, StepRunner.continue, StepRunner.getCurrentStep,
    StepRunner.getStepsForActivePath.
  cbn [StepRunner.activePath StepRunner.currentStepIndex
       StepRunner.completedStepIds StepRunner.getState
       StepRunner.view_completedStepIds String.eqb Ascii.eqb Bool.eqb andb].
  rewrite Hsteps. cbn [or_nil]. rewrite Nat.leb_refl.
  repeat split.
Qed.

Lemma continue_N_times_completes_all_witness :
  let st :=
    StepRunner.continueTimes
      3 (Some Samples.gmail)
      (fst (StepRunner.startArticle 1 (Some Samples.gmail) "t0"
                                    StepRunner.constructor)) in
  StepRunner.completedStepIds st = ["step1"; "step2"; "step3"]
  /\ StepRunner.view_completedStepIds (StepRunner.getState st)
     = ["step1"; "step2"; "step3"]
  /\ StepRunner.currentStepIndex st = 3
  /\ StepRunner.isComplete st (Some Samples.gmail) = true
  /\ StepRunner.continue (Some Samples.gmail) st
     = (st, StepRunner.ContinueDone).
Proof.
  apply (continue_N_times_completes_all
           1 Samples.gmail "t0" StepRunner.constructor
           [Samples.mkStep "step1" "Check the outbox for stuck emails";
            Samples.mkStep "step2"
              "Verify SMTP Server and Port Number match requirements";
            Samples.mkStep "step3"
              "Check App Password is correctly configured (if using 2FA)"]).
  - reflexivity.
  - simpl. repeat constructor; simpl; intuition discriminate.
Defined.

(** C8.  [back] on a state whose index is [n + 1] stores index [n], changes
    nothing else and reports success with the new index; on a state whose
    index is 0 it reports failure and returns the state as it was.  In both
    cases [completedStepIds] is what it was before. *)
Theorem back_decrements_or_fails_unchanged (st : StepRunner.State) :
  match StepRunner.currentStepIndex st with
  | 0 =>
      StepRunner.back st = (st, StepRunner.BackFailure "Already at first step")
  | S n =>
      StepRunner.back st
      = (StepRunner.mkState
           (StepRunner.selectedArticleId st) (StepRunner.activePath st) n
           (StepRunner.completedStepIds st) (StepRunner.attemptedPaths st)
           (StepRunner.failureHistory st) (StepRunner.skippedStepsCount st),
         StepRunner.BackSuccess n)
  end
  /\ StepRunner.completedStepIds (fst (StepRunner.back st))
     = StepRunner.completedStepIds st.
Proof.
  unfold StepRunner.back.
  destruct (StepRunner.currentStepIndex st) as [| n] eqn:E; simpl.
  - split; reflexivity.
  - rewrite Nat.sub_0_r. split; reflexivity.
Qed.

(** C9.  Whatever operations ran before, from whatever state, the state
    that [getState] shows after [reset] is the initial one: no selected
    article, path "main", index 0, no completed step, empty attempted-path
    and failure histories, skipped-steps count 0. *)
Theorem reset_restores_initial_shape
        (ops : list StepRunner.Op) (st : StepRunner.State) :
  StepRunner.getState (StepRunner.reset (StepRunner.run ops st))
  = StepRunner.mkStateView None "main" 0 [] [] [] 0
  /\ StepRunner.getState (StepRunner.reset (StepRunner.run ops st))
     = StepRunner.getState StepRunner.constructor.
Proof. split; reflexivity. Qed.

(** C4.  The side panel's cross-article sequence: article 7 is started, a
    failure is recorded, [selectFallback] answers with fallback [fb-smtp]
    of article 3, and [switchToFallback] is called with it.  Afterwards the
    path is [fb-smtp] while the selected article identifier is still 7, an
    article that has no such fallback: the path does not resolve on the
    selected article, and the identifier was not updated with the path. *)
Lemma cross_article_switch_keeps_selected_article :
  let corpus := [Samples.printer; Samples.twoFallbacks] in
  let st :=
    StepRunner.run
      [StepRunner.OpStartArticle 7 (Some Samples.printer) "t0";
       StepRunner.OpRecordFailure "p1" "system-error" (Some "smtp port wrong")
                                  "t1";
       StepRunner.OpSwitchToFallback "fb-smtp" (Some Samples.twoFallbacks)
                                     [] "t2"]
      StepRunner.constructor in
  (exists fb,
      StepRunner.selectFallback Samples.printer corpus "system-error"
                                (Some "smtp port wrong")
      = StepRunner.CrossArticle fb Samples.twoFallbacks
      /\ Fallback.id fb = "fb-smtp")
  /\ StepRunner.activePath st = "fb-smtp"
  /\ StepRunner.selectedArticleId st = Some 7%Z
  /\ Article.id Samples.twoFallbacks = 3%Z
  /\ ~ Runs.activePathResolves corpus st.
Proof.
  cbv zeta. split; [| split; [| split; [| split]]].
  - eexists. split; reflexivity.
  - reflexivity.
  - reflexivity.
  - reflexivity.
  - intros [H | [a [fb [Hin [Hsel [Hfb _]]]]]].
    + discriminate H.
    + destruct Hin as [<- | [<- | []]].
      * exact Hfb.
      * discriminate Hsel.
Qed.

(** After every sequence of operations on a new runner,
    [activePath] is the path most recently entered: "main", or the
    [fallbackId] argument of a [switchToFallback] of the sequence, stored as
    given.  [selectedArticleId] is the identifier given to the most recent
    [startArticle] (none if there was none), and [switchToFallback] never
    changes it. *)
Theorem activePath_is_main_or_last_switch (ops : list StepRunner.Op) :
  let st := StepRunner.run ops StepRunner.constructor in
  StepRunner.activePath st = Runs.lastPath ops
  /\ (StepRunner.activePath st = "main"
      \/ exists article texts now,
           In (StepRunner.OpSwitchToFallback (StepRunner.activePath st)
                                             article texts now) ops)
  /\ StepRunner.selectedArticleId st = Runs.lastStarted ops
  /\ (forall fallbackId article texts now st',
         StepRunner.selectedArticleId
           (fst (StepRunner.switchToFallback fallbackId article texts now st'))
         = StepRunner.selectedArticleId st').
Proof.
  cbv zeta.
  destruct (RunnerFacts.run_path_article ops StepRunner.constructor None "main"
              eq_refl eq_refl) as [Hsel Hpath].
  split; [exact Hpath |]. split; [| split; [exact Hsel | reflexivity]].
  rewrite Hpath.
  destruct (RunnerFacts.lastPath_main_or_switched ops "main") as [H | [H | H]];
    auto.
Qed.

(* ================================================================== *)
(** ** Retrieval scorer *)
(* ================================================================== *)

Module RetrievalFacts.
Import JsString Retrieval Ranking.

Lemma search_fullRanking (articles : list Article.t) (query : string)
      (limit : option Z) :
  search articles query limit
  = slice0 (fullRanking articles query) (limitOf limit).
Proof. reflexivity. Qed.

Lemma fold_tagRound (queryTokens : list string) (tags : list string) :
  forall (z : Z) (acc : list string),
    fold_left (tagRound queryTokens) tags (z, acc)
    = ((z + 3 * Z.of_nat (List.length (filter (tagHit queryTokens) tags)))%Z,
       acc ++ filter (tagHit queryTokens) tags).
Proof.
  induction tags as [| tag tags IH]; intros z acc; cbn [fold_left filter].
  - cbn [List.length]. now rewrite Z.add_0_r, app_nil_r.
  - unfold tagRound at 2. fold (tagHit queryTokens tag).
    destruct (tagHit queryTokens tag); cbn [fst snd]; rewrite IH.
    + rewrite <- app_assoc. cbn [List.length app]. f_equal. lia.
    + reflexivity.
Qed.

Lemma fold_keywordRound (queryLower : string) (keywords : list string) :
  forall (z : Z) (acc : list string),
    fold_left (keywordRound queryLower) keywords (z, acc)
    = ((z + Z.of_nat (List.length (filter (keywordHit queryLower) keywords)))%Z,
       acc ++ filter (keywordHit queryLower) keywords).
Proof.
  induction keywords as [| k ks IH]; intros z acc; cbn [fold_left filter].
  - cbn [List.length]. now rewrite Z.add_0_r, app_nil_r.
  - unfold keywordRound at 2. fold (keywordHit queryLower k).
    destruct (keywordHit queryLower k); cbn [fst snd]; rewrite IH.
    + rewrite <- app_assoc. cbn [List.length app]. f_equal. lia.
    + reflexivity.
Qed.

(** The score of one article, term by term. *)
Lemma scoreArticle_terms (queryLower : string) (queryTokens : list string)
      (a : Article.t) :
  let r := scoreArticle queryLower queryTokens a in
  article r = a
  /\ tagMatches (matchInfo r)
     = filter (tagHit queryTokens) (or_nil (Article.tags a))
  /\ keywordMatches (matchInfo r)
     = filter (keywordHit queryLower) (or_nil (Article.keywords a))
  /\ score r
     = (3 * Z.of_nat (List.length (tagMatches (matchInfo r)))
        + (if productMatch (matchInfo r) then 2 else 0)
        + (if titleMatch (matchInfo r) then 1 else 0)
        + Z.of_nat (List.length (keywordMatches (matchInfo r))))%Z.
Proof.
  destruct a as [id title tags product keywords steps fallbacks esc].
  unfold scoreArticle.
  cbn [Article.tags Article.product Article.title Article.keywords or_nil].
  destruct tags as [tags |]; [rewrite fold_tagRound |];
    (destruct product as [product |];
     [destruct (truthy product && includes queryLower (toLowerCase product)) |]);
    (destruct title as [title |];
     [destruct (truthy title && includes (toLowerCase title) queryLower) |]);
    (destruct keywords as [keywords |]; [rewrite fold_keywordRound |]);
    cbn [article score matchInfo tagMatches keywordMatches productMatch
         titleMatch or_nil app List.length filter];
    repeat split; lia.
Qed.

(** *** The sort *)

Lemma insertResult_perm (r : RetrievalResult) (l : list RetrievalResult) :
  Permutation (r :: l) (insertResult r l).
Proof.
  induction l as [| x l IH]; simpl; trivial.
  destruct (0 <? compareResults r x)%Z; trivial.
  rewrite perm_swap. now constructor.
Qed.

Lemma sortResults_perm (l : list RetrievalResult) :
  Permutation l (sortResults l).
Proof.
  induction l as [| r l IH]; simpl; trivial.
  rewrite <- insertResult_perm. now constructor.
Qed.

Lemma insertResult_sorted (r : RetrievalResult) (l : list RetrievalResult) :
  StronglySorted descending l -> StronglySorted descending (insertResult r l).
Proof.
  induction l as [| x l IH]; intros Hs; simpl.
  - repeat constructor.
  - inversion Hs as [| ? ? Hl Hx]; subst.
    unfold compareResults.
    destruct (Z.ltb_spec 0 (score x - score r)) as [Hlt | Hge].
    + constructor; [now apply IH |].
      apply Forall_forall. intros y Hy.
      apply (Permutation_in _ (Permutation_sym (insertResult_perm r l))) in Hy.
      destruct Hy as [<- | Hy].
      * unfold descending. lia.
      * rewrite Forall_forall in Hx. now apply Hx.
    + constructor; trivial. constructor.
      * unfold descending. lia.
      * apply Forall_forall. intros y Hy. rewrite Forall_forall in Hx.
        specialize (Hx y Hy). unfold descending in *. lia.
Qed.

Lemma sortResults_sorted (l : list RetrievalResult) :
  StronglySorted descending (sortResults l).
Proof.
  induction l as [| r l IH]; simpl.
  - constructor.
  - now apply insertResult_sorted.
Qed.

(** *** The slice *)

Lemma slice0_firstn {A : Type} (l : list A) (limit : Z) :
  exists n, slice0 l limit = firstn n l
            /\ Z.of_nat (List.length (slice0 l limit))
               = (if (limit <? 0)%Z
                  then Z.max 0 (Z.of_nat (List.length l) + limit)
                  else Z.min limit (Z.of_nat (List.length l)))%Z.
Proof.
  unfold slice0. destruct (Z.ltb_spec limit 0).
  - eexists. split; [reflexivity |]. rewrite length_firstn. lia.
  - eexists. split; [reflexivity |]. rewrite length_firstn. lia.
Qed.

Lemma StronglySorted_firstn (l : list RetrievalResult) (n : nat) :
  StronglySorted descending l ->
  StronglySorted descending (firstn n l)
  /\ (forall r r', In r (firstn n l) -> In r' (skipn n l) ->
                   (score r' <= score r)%Z).
Proof.
  revert n. induction l as [| x l IH]; intros n Hs.
  - rewrite firstn_nil, skipn_nil. split; [constructor | intros ? ? []].
  - destruct n as [| n]; simpl.
    + split; [constructor | intros ? ? []].
    + inversion Hs as [| ? ? Hl Hx]; subst.
      destruct (IH n Hl) as [Hf Hr]. split.
      * constructor; trivial. apply Forall_forall. intros y Hy.
        rewrite Forall_forall in Hx. apply Hx.
        rewrite <- (firstn_skipn n l). apply in_app_iff. now left.
      * intros r r' [<- | Hin] Hin'.
        -- rewrite Forall_forall in Hx. apply Hx.
           rewrite <- (firstn_skipn n l). apply in_app_iff. now right.
        -- now apply Hr.
Qed.

Lemma In_fullRanking (articles : list Article.t) (query : string)
      (r : RetrievalResult) :
  In r (fullRanking articles query)
  <-> (0 < score r)%Z
      /\ exists a, In a articles
                   /\ r = scoreArticle (toLowerCase query)
                                       (split_ws (toLowerCase query)) a.
Proof.
  unfold fullRanking. cbv zeta. split.
  - intros H.
    apply (Permutation_in _ (Permutation_sym (sortResults_perm _))) in H.
    apply filter_In in H. destruct H as [Hin Hpos].
    apply in_map_iff in Hin. destruct Hin as [a [Ha Hina]].
    split; [now apply Z.ltb_lt |]. exists a. now split.
  - intros [Hpos [a [Hina ->]]].
    apply (Permutation_in _ (sortResults_perm _)).
    apply filter_In. split; [now apply in_map | now apply Z.ltb_lt].
Qed.

End RetrievalFacts.

(** C7 (counterexample).  Query "mail" against the Gmail article: the tags
    "email" and "gmail" share no token with the query, yet both are counted
    as tag matches, because "mail" is a substring of each; the article is
    returned with score 7 (6 for the two tags, 1 for the title). *)
Lemma tag_scored_without_shared_token :
  Ranking.tagSharesToken "mail" "email" = false
  /\ Ranking.tagSharesToken "mail" "gmail" = false
  /\ map (fun r => (Retrieval.tagMatches (Retrieval.matchInfo r),
                    Retrieval.titleMatch (Retrieval.matchInfo r),
                    Retrieval.score r))
         (Retrieval.search [Samples.gmail] "mail" None)
     = [(["email"; "gmail"], true, 7%Z)].
Proof. repeat split. Qed.

(** C7 (amended).  For every query, corpus and limit: an article's score
    holds exactly 3 points for each of its tags whose lower-cased text
    contains some white-space-separated token of the lower-cased query as a
    substring (besides 2 for a product match, 1 for a title match and 1 per
    keyword match); every returned result has a score strictly above 0 and
    is the scoring of a corpus article; the returned list is ordered by
    score descending; and it is the leading part of the full ranking of the
    positively scored results, of length [min limit total] for a limit that
    is not negative (3 when no limit is given). *)
Theorem search_tag_substring_scoring_sorted_truncated
        (articles : list Article.t) (query : string) (limit : option Z) :
  let queryLower := JsString.toLowerCase query in
  let queryTokens := JsString.split_ws queryLower in
  let res := Retrieval.search articles query limit in
  let total := Ranking.fullRanking articles query in
  (forall a,
      let r := Retrieval.scoreArticle queryLower queryTokens a in
      Retrieval.tagMatches (Retrieval.matchInfo r)
      = filter (Ranking.tagHit queryTokens) (or_nil (Article.tags a))
      /\ Retrieval.score r
         = (3 * Z.of_nat (List.length
                            (filter (Ranking.tagHit queryTokens)
                                    (or_nil (Article.tags a))))
            + (if Retrieval.productMatch (Retrieval.matchInfo r) then 2 else 0)
            + (if Retrieval.titleMatch (Retrieval.matchInfo r) then 1 else 0)
            + Z.of_nat (List.length
                          (Retrieval.keywordMatches (Retrieval.matchInfo r))))%Z)
  /\ (forall r, In r res ->
                (0 < Retrieval.score r)%Z
                /\ exists a, In a articles
                             /\ r = Retrieval.scoreArticle queryLower
                                                           queryTokens a)
  /\ StronglySorted Ranking.descending res
  /\ (exists rest,
         total = res ++ rest
         /\ forall r r', In r res -> In r' rest ->
                         (Retrieval.score r' <= Retrieval.score r)%Z)
  /\ Permutation total
       (filter (fun r => (0 <? Retrieval.score r)%Z)
               (map (Retrieval.scoreArticle queryLower queryTokens) articles))
  /\ Z.of_nat (List.length res)
     = (let l := Ranking.limitOf limit in
        if (l <? 0)%Z then Z.max 0 (Z.of_nat (List.length total) + l)
        else Z.min l (Z.of_nat (List.length total)))%Z.
Proof.
  cbv zeta. rewrite RetrievalFacts.search_fullRanking.
  destruct (RetrievalFacts.slice0_firstn
              (Ranking.fullRanking articles query)
              (Ranking.limitOf limit)) as [n [Hn Hlen]].
  pose proof (RetrievalFacts.sortResults_sorted
                (filter (fun r => (0 <? Retrieval.score r)%Z)
                        (map (Retrieval.scoreArticle
                                (JsString.toLowerCase query)
                                (JsString.split_ws (JsString.toLowerCase query)))
                             articles))) as Hsorted.
  fold (Ranking.fullRanking articles query) in Hsorted.
  destruct (RetrievalFacts.StronglySorted_firstn _ n Hsorted) as [Hf Hr].
  split; [| split; [| split; [| split; [| split]]]].
  - intros a.
    destruct (RetrievalFacts.scoreArticle_terms
                (JsString.toLowerCase query)
                (JsString.split_ws (JsString.toLowerCase query)) a)
      as [_ [Ht [_ Hs]]].
    split; [exact Ht |]. rewrite Hs at 1. now rewrite Ht.
  - intros r Hin. apply RetrievalFacts.In_fullRanking.
    rewrite Hn in Hin.
    rewrite <- (firstn_skipn n (Ranking.fullRanking articles query)).
    apply in_app_iff. now left.
  - now rewrite Hn.
  - exists (skipn n (Ranking.fullRanking articles query)).
    rewrite Hn. split; [now rewrite firstn_skipn |].
    intros r r'. apply Hr.
  - apply Permutation_sym, RetrievalFacts.sortResults_perm.
  - exact Hlen.
Qed.

Module BlankFacts.
Import JsString Retrieval Ranking RetrievalFacts Blank.







End BlankFacts.




(* ================================================================== *)
(** ** Further properties: tokenizer and similarity *)
(* ================================================================== *)

Module TokenFacts.
Import JsString Dedupe Tokens Similarity SimilarityFacts.

Lemma lower_char_idem (c : ascii) : lower_char (lower_char c) = lower_char c.
Proof. destruct c as [[] [] [] [] [] [] [] []]; reflexivity. Qed.

Lemma toLowerCase_idem (s : string) : toLowerCase (toLowerCase s) = toLowerCase s.
Proof.
  unfold toLowerCase. induction s as [| c s IH]; simpl; trivial.
  now rewrite lower_char_idem, IH.
Qed.

(** After lower-casing and the replacement of punctuation a code unit is a
    token character or white space. *)
Lemma normal_char (c : ascii) :
  let c' := lower_char c in
  let c'' := if is_word c' || is_space c' then c' else " "%char in
  is_token_char c'' || is_space c'' = true.
Proof. destruct c as [[] [] [] [] [] [] [] []]; reflexivity. Qed.

Lemma string_forall_map_chars (P : ascii -> bool) (f : ascii -> ascii)
      (s : string) :
  string_forall P (map_chars f s) = string_forall (fun c => P (f c)) s.
Proof. induction s as [| c s IH]; simpl; trivial. now rewrite IH. Qed.

Lemma string_forall_all (P : ascii -> bool) (s : string) :
  (forall c, P c = true) -> string_forall P s = true.
Proof. intros H. induction s as [| c s IH]; simpl; trivial. now rewrite H. Qed.

Lemma string_forall_impl (P Q : ascii -> bool) (s : string) :
  (forall c, P c = true -> Q c = true) ->
  string_forall P s = true -> string_forall Q s = true.
Proof.
  intros H. induction s as [| c s IH]; simpl; trivial.
  intros Hs. apply andb_true_iff in Hs. destruct Hs as [Hc Hs].
  now rewrite (H c Hc), IH.
Qed.

(** The pieces of a split hold no white space, and only code units of the
    string that was split. *)
Lemma split_ws_pieces (P : ascii -> bool) (s : string) :
  string_forall P s = true ->
  Forall (fun piece =>
            string_forall (fun c => P c && negb (is_space c)) piece = true)
         (split_ws s).
Proof.
  induction s as [| c s IH]; intros H.
  - repeat constructor.
  - simpl in H. apply andb_true_iff in H. destruct H as [Hc Hs].
    specialize (IH Hs). cbn [split_ws].
    destruct (is_space c) eqn:Ec.
    + destruct s as [| c' s']; [now constructor |].
      destruct (is_space c'); [assumption | now constructor].
    + destruct (split_ws s) as [| piece pieces].
      * repeat constructor. simpl. now rewrite Hc, Ec.
      * inversion IH as [| ? ? Hp Hps]; subst. constructor; trivial.
        simpl. now rewrite Hc, Ec, Hp.
Qed.

Lemma inter_le_union (tokens1 tokens2 : list string) :
  inter_card tokens1 tokens2 <= union_card tokens1 tokens2.
Proof.
  unfold inter_card, union_card. apply NoDup_incl_length.
  - apply NoDup_nodup.
  - intros y. rewrite !nodup_In, filter_In, in_app_iff. tauto.
Qed.

Lemma Zpos_of_nat_succ (u : nat) : Z.pos (Pos.of_nat (S u)) = Z.of_nat (S u).
Proof.
  rewrite <- Pos.of_nat_succ. now rewrite Zpos_P_of_succ_nat, Nat2Z.inj_succ.
Qed.

Lemma inter_union_same (tokens : list string) :
  inter_card tokens tokens = union_card tokens tokens.
Proof.
  unfold inter_card, union_card. apply Permutation_length.
  apply NoDup_Permutation; try apply NoDup_nodup.
  intros y. rewrite !nodup_In, filter_In, in_app_iff, existsb_eqb_In. tauto.
Qed.

Lemma union_card_pos (tokens1 tokens2 : list string) :
  tokens1 <> [] -> union_card tokens1 tokens2 <> 0.
Proof.
  intros Hne. destruct tokens1 as [| x xs]; [now elim Hne |].
  unfold union_card. intros H. apply length_zero_iff_nil in H.
  assert (In x (nodup string_dec ((x :: xs) ++ tokens2))) as Hin.
  { apply nodup_In. now left. }
  rewrite H in Hin. exact Hin.
Qed.

Lemma jaccard_same (tokens : list string) :
  tokens <> [] -> (jaccard tokens tokens == 1)%Q.
Proof.
  intros Hne. unfold jaccard. rewrite inter_union_same.
  pose proof (union_card_pos tokens tokens Hne) as Hu.
  destruct (union_card tokens tokens) as [| u]; [now elim Hu |].
  change (S u =? 0) with false. cbv iota.
  unfold Qeq. cbn [Qnum Qden]. rewrite Zpos_of_nat_succ. lia.
Qed.

Lemma jaccard_nil_l (tokens : list string) : (jaccard [] tokens == 0)%Q.
Proof.
  unfold jaccard. destruct (union_card [] tokens =? 0); reflexivity.
Qed.

Lemma skip_from (texts : list string) (steps : list Step.t) :
  forall (k : nat) (acc : JsSet.t nat),
    Forall (fun i => i < k) acc ->
    findStepsToSkip_from k steps texts acc
    = acc ++ map fst
               (filter (fun p => Skipping.similarToCompleted texts (snd p))
                       (combine (seq k (List.length steps)) steps)).
Proof.
  induction steps as [| step rest IH]; intros k acc Hacc.
  - simpl. now rewrite app_nil_r.
  - cbn [findStepsToSkip_from List.length seq combine filter snd].
    fold (Skipping.similarToCompleted texts step).
    destruct (Skipping.similarToCompleted texts step).
    + rewrite (add_fresh Nat.eqb Nat.eqb_eq).
      * rewrite IH.
        -- cbn [map fst]. now rewrite <- app_assoc.
        -- apply Forall_app. split.
           ++ eapply Forall_impl; [| exact Hacc]. intros; cbv beta in *; lia.
           ++ repeat constructor.
      * intros Hin. rewrite Forall_forall in Hacc.
        specialize (Hacc k Hin). lia.
    + apply IH. eapply Forall_impl; [| exact Hacc]. intros; cbv beta in *; lia.
Qed.

End TokenFacts.

(** X1.  Every token that [normalizeToTokens] returns is non-empty and made
    only of the characters [a-z], [0-9] and [_]: no upper-case letter, no
    punctuation and no white space survives. *)
Theorem normalizeToTokens_tokens_well_formed (text : string) :
  Forall (fun token => Tokens.token_ok token = true)
         (Dedupe.normalizeToTokens text).
Proof.
  unfold Dedupe.normalizeToTokens.
  destruct (negb (JsString.truthy text)); [constructor |].
  apply Forall_forall. intros token Hin. apply filter_In in Hin.
  destruct Hin as [Hin Hlen].
  assert (Hall : Tokens.string_forall
                   (fun c => Tokens.is_token_char c || JsString.is_space c)
                   (JsString.replace_punct (JsString.toLowerCase text)) = true).
  { unfold JsString.replace_punct, JsString.toLowerCase.
    rewrite !TokenFacts.string_forall_map_chars.
    apply TokenFacts.string_forall_all. intros c.
    apply (TokenFacts.normal_char c). }
  pose proof (TokenFacts.split_ws_pieces _ _ Hall) as Hpieces.
  rewrite Forall_forall in Hpieces. specialize (Hpieces token Hin).
  unfold Tokens.token_ok. apply andb_true_iff. split.
  - destruct token; [discriminate Hlen | reflexivity].
  - eapply TokenFacts.string_forall_impl; [| exact Hpieces].
    intros c Hc. cbv beta in Hc.
    destruct (Tokens.is_token_char c); trivial.
    destruct (JsString.is_space c); discriminate Hc.
Qed.

(** X2.  [calculateJaccardSimilarity] is symmetric in its two token
    sequences. *)
Theorem calculateJaccardSimilarity_symmetric (tokens1 tokens2 : list string) :
  Dedupe.calculateJaccardSimilarity tokens1 tokens2
  = Dedupe.calculateJaccardSimilarity tokens2 tokens1.
Proof.
  rewrite !SimilarityFacts.calculateJaccardSimilarity_jaccard.
  apply SimilarityFacts.jaccard_sym.
Qed.

(** X3.  [calculateJaccardSimilarity] lies between 0 and 1; it is 0 on two
    empty sequences, 0 as soon as one sequence is empty, and 1 on two equal
    sequences that are not empty, whatever their repetitions. *)
Theorem calculateJaccardSimilarity_range (tokens1 tokens2 : list string) :
  (0 <= Dedupe.calculateJaccardSimilarity tokens1 tokens2 <= 1)%Q
  /\ (Dedupe.calculateJaccardSimilarity [] tokens2 == 0)%Q
  /\ (Dedupe.calculateJaccardSimilarity tokens1 [] == 0)%Q
  /\ (tokens1 = [] \/
      (Dedupe.calculateJaccardSimilarity tokens1 tokens1 == 1)%Q).
Proof.
  rewrite !SimilarityFacts.calculateJaccardSimilarity_jaccard.
  split; [| split; [| split]].
  - unfold Similarity.jaccard.
    pose proof (TokenFacts.inter_le_union tokens1 tokens2) as Hle.
    destruct (Similarity.union_card tokens1 tokens2) as [| u].
    + simpl. split; unfold Qle; simpl; lia.
    + change (S u =? 0) with false. cbv iota.
      unfold Qle. cbn [Qnum Qden]. rewrite TokenFacts.Zpos_of_nat_succ. lia.
  - apply TokenFacts.jaccard_nil_l.
  - rewrite SimilarityFacts.jaccard_sym. apply TokenFacts.jaccard_nil_l.
  - destruct tokens1 as [| x xs]; [now left | right].
    apply TokenFacts.jaccard_same. discriminate.
Qed.

(** X4.  With the default threshold, [areStepsSimilar] does not depend on
    the order of its two texts. *)
Theorem areStepsSimilar_symmetric (text1 text2 : string) :
  Dedupe.areStepsSimilar text1 text2 Dedupe.STEP_SIMILARITY_THRESHOLD
  = Dedupe.areStepsSimilar text2 text1 Dedupe.STEP_SIMILARITY_THRESHOLD.
Proof.
  unfold Dedupe.areStepsSimilar.
  rewrite (String.eqb_sym text1 text2).
  rewrite !SimilarityFacts.calculateJaccardSimilarity_jaccard.
  now rewrite (SimilarityFacts.jaccard_sym (Dedupe.normalizeToTokens text1)).
Qed.

Lemma areStepsSimilar_unfold (text1 text2 : string) (threshold : Q) :
  Dedupe.areStepsSimilar text1 text2 threshold = true
  <-> text1 = text2
      \/ (threshold < Similarity.jaccard (Dedupe.normalizeToTokens text1)
                                         (Dedupe.normalizeToTokens text2))%Q.
Proof.
  unfold Dedupe.areStepsSimilar.
  rewrite SimilarityFacts.calculateJaccardSimilarity_jaccard.
  destruct (String.eqb text1 text2) eqn:E.
  - apply String.eqb_eq in E. tauto.
  - apply String.eqb_neq in E. rewrite negb_true_iff.
    rewrite SimilarityFacts.Qle_bool_false_lt. tauto.
Qed.

(** X5.  Two texts with the same normalized tokens (they differ at most in
    letter case, punctuation and spacing) are similar under the default
    threshold exactly when they are the same text or have at least one
    token: two different texts without any token are not similar. *)
Theorem areStepsSimilar_same_tokens (text1 text2 : string) :
  Dedupe.normalizeToTokens text1 = Dedupe.normalizeToTokens text2 ->
  (Dedupe.areStepsSimilar text1 text2 Dedupe.STEP_SIMILARITY_THRESHOLD = true
   <-> text1 = text2 \/ Dedupe.normalizeToTokens text1 <> []).
Proof.
  intros Htok.
  rewrite areStepsSimilar_unfold, <- Htok.
  destruct (Dedupe.normalizeToTokens text1) as [| x xs] eqn:E.
  - split; intros [H | H]; auto.
    + exfalso. unfold Dedupe.STEP_SIMILARITY_THRESHOLD in H.
      rewrite (TokenFacts.jaccard_nil_l []) in H. discriminate H.
    + now elim H.
  - split; intros _; right; [discriminate |].
    rewrite (TokenFacts.jaccard_same (x :: xs)) by discriminate.
    reflexivity.
Qed.

Lemma areStepsSimilar_same_tokens_witness :
  Dedupe.areStepsSimilar "Check the outbox!" "check THE  outbox"
                         Dedupe.STEP_SIMILARITY_THRESHOLD = true
  <-> "Check the outbox!" = "check THE  outbox"
      \/ Dedupe.normalizeToTokens "Check the outbox!" <> [].
Proof.
  apply (areStepsSimilar_same_tokens "Check the outbox!" "check THE  outbox").
  reflexivity.
Defined.

(** X6.  The skip set of [findStepsToSkip] holds exactly the positions of
    the candidate steps whose text is similar to some completed text, each
    once and in increasing order; without completed texts it is empty. *)
Theorem findStepsToSkip_positions
        (fallbackSteps : list Step.t) (completedStepTexts : list string) :
  Dedupe.findStepsToSkip fallbackSteps completedStepTexts
  = map fst
        (filter (fun p => Skipping.similarToCompleted completedStepTexts (snd p))
                (combine (seq 0 (List.length fallbackSteps)) fallbackSteps))
  /\ Dedupe.findStepsToSkip fallbackSteps [] = [].
Proof.
  unfold Dedupe.findStepsToSkip, JsSet.empty. split.
  - now rewrite TokenFacts.skip_from by constructor.
  - rewrite TokenFacts.skip_from by constructor. cbn [app].
    induction (combine (seq 0 (List.length fallbackSteps)) fallbackSteps)
      as [| p l IH]; simpl; trivial.
Qed.

(** X7.  The keyword overlap never exceeds the number of trigger keywords,
    is 0 when there is no query token, and does not depend on the letter
    case of the trigger keywords. *)
Theorem calculateKeywordOverlap_bounds
        (triggerKeywords queryTokens : list string) :
  Dedupe.calculateKeywordOverlap triggerKeywords queryTokens
  <= List.length triggerKeywords
  /\ Dedupe.calculateKeywordOverlap triggerKeywords [] = 0
  /\ Dedupe.calculateKeywordOverlap (map JsString.toLowerCase triggerKeywords)
                                    queryTokens
     = Dedupe.calculateKeywordOverlap triggerKeywords queryTokens.
Proof.
  rewrite !SelectFacts.calculateKeywordOverlap_count.
  split; [apply filter_length_le | split].
  - induction triggerKeywords as [| k ks IH]; simpl; trivial.
  - induction triggerKeywords as [| k ks IH]; simpl; trivial.
    rewrite TokenFacts.toLowerCase_idem.
    destruct (existsb _ queryTokens); simpl; now rewrite IH.
Qed.

(* ================================================================== *)
(** ** Further properties: step runner *)
(* ================================================================== *)

Module NavigationFacts.
Import Dedupe StepRunner Skipping Runs Histories SwitchFacts.

Lemma getTotalSteps_length (st : State) (article : option Article.t) :
  getTotalSteps st article = List.length (getStepsForActivePath st article).
Proof.
  unfold getTotalSteps, getStepsForActivePath.
  destruct article as [a |]; trivial.
  destruct (activePath st =? "main")%string.
  - now destruct (Article.steps a).
  - destruct (activeFallback st a) as [[i c k [steps |]] |]; reflexivity.
Qed.

Lemma getCurrentStep_nth (st : State) (article : option Article.t) :
  getCurrentStep st article
  = nth_error (getStepsForActivePath st article) (currentStepIndex st).
Proof.
  unfold getCurrentStep. destruct article as [a |].
  - destruct (Nat.leb_spec (List.length (getStepsForActivePath st (Some a)))
                           (currentStepIndex st)) as [Hle | Hlt]; trivial.
    symmetry. now apply nth_error_None.
  - simpl. now destruct (currentStepIndex st).
Qed.

Lemma getCurrentStep_None (st : State) (article : option Article.t) :
  getCurrentStep st article = None <-> isComplete st article = true.
Proof.
  rewrite getCurrentStep_nth. unfold isComplete.
  rewrite nth_error_None, Nat.leb_le. tauto.
Qed.

Lemma firstNonSkipped_bound (skip : JsSet.t nat) (d : nat) :
  forall n i,
    firstNonSkipped skip i n d = d
    \/ (i <= firstNonSkipped skip i n d < i + n).
Proof.
  induction n as [| n IH]; intros i; simpl.
  - now left.
  - destruct (negb (JsSet.has Nat.eqb skip i)).
    + right. lia.
    + destruct (IH (S i)) as [H | H]; [now left | right; lia].
Qed.

Lemma leadingSimilar_le (texts : list string) (steps : list Step.t) :
  leadingSimilar texts steps <= List.length steps.
Proof.
  induction steps as [| s r IH]; simpl; trivial.
  destruct (similarToCompleted texts s); lia.
Qed.

Lemma leadingSimilar_first (texts : list string) (steps : list Step.t) :
  leadingSimilar texts steps < List.length steps ->
  (exists s, nth_error steps (leadingSimilar texts steps) = Some s
             /\ similarToCompleted texts s = false)
  /\ Forall (fun s => similarToCompleted texts s = true)
            (firstn (leadingSimilar texts steps) steps).
Proof.
  induction steps as [| s r IH]; simpl; [lia |].
  destruct (similarToCompleted texts s) eqn:E; intros H.
  - destruct IH as [[s' [Hn Hs']] Hall]; [lia |]. split.
    + exists s'. now split.
    + simpl. now constructor.
  - split; [exists s; now split | constructor].
Qed.

(** The bound on the pointer is kept by every operation on the article. *)
Lemma step_keeps_bound (article : Article.t) (st : State) (op : Op) :
  opOn article op ->
  currentStepIndex st
  <= List.length (getStepsForActivePath st (Some article)) ->
  currentStepIndex (step st op)
  <= List.length (getStepsForActivePath (step st op) (Some article)).
Proof.
  intros Hop Hb. rewrite getStepsForActivePath_path in Hb.
  destruct op as [aid a now | a | | sid rc note now | fid a texts now];
    cbn [opOn] in Hop; subst; cbn [step].
  - cbn. lia.
  - unfold continue.
    destruct (getCurrentStep st (Some article)) as [s |] eqn:E; cbn [fst].
    + rewrite getCurrentStep_nth, getStepsForActivePath_path in E.
      assert (nth_error (stepsOfPath (activePath st) (Some article))
                        (currentStepIndex st) <> None) as Hn by congruence.
      apply nth_error_Some in Hn.
      rewrite getStepsForActivePath_path. cbn [activePath currentStepIndex].
      lia.
    + now rewrite getStepsForActivePath_path.
  - unfold back. destruct (0 <? currentStepIndex st); cbn [fst];
      rewrite getStepsForActivePath_path; cbn [activePath currentStepIndex];
      lia.
  - unfold recordFailure. cbn [fst].
    rewrite getStepsForActivePath_path. cbn [activePath currentStepIndex].
    exact Hb.
  - unfold switchToFallback. cbn [fst currentStepIndex].
    rewrite !getStepsForActivePath_path. cbn [activePath].
    match goal with |- firstNonSkipped ?sk 0 ?n 0 <= _ =>
      destruct (firstNonSkipped_bound sk 0 n 0) as [H | H] end; lia.
Qed.

Lemma run_keeps_bound (article : Article.t) (ops : list Op) :
  forall st,
    Forall (opOn article) ops ->
    currentStepIndex st
    <= List.length (getStepsForActivePath st (Some article)) ->
    currentStepIndex (run ops st)
    <= List.length (getStepsForActivePath (run ops st) (Some article)).
Proof.
  induction ops as [| op ops IH]; intros st Hall Hb; simpl; trivial.
  inversion Hall; subst. apply IH; trivial. now apply step_keeps_bound.
Qed.

Lemma add_prefix (s : JsSet.t string) (x : string) :
  exists more, JsSet.add String.eqb s x = s ++ more.
Proof.
  unfold JsSet.add. destruct (JsSet.has String.eqb s x).
  - exists []. now rewrite app_nil_r.
  - now exists [x].
Qed.

Lemma step_completed_prefix (st : State) (op : Op) :
  notStart op ->
  exists more, completedStepIds (step st op) = completedStepIds st ++ more.
Proof.
  intros Hop. destruct op; simpl in Hop; try contradiction; simpl.
  - unfold continue. destruct (getCurrentStep st article) as [s |]; simpl.
    + apply add_prefix.
    + exists []. now rewrite app_nil_r.
  - unfold back. destruct (0 <? currentStepIndex st); simpl;
      exists []; now rewrite app_nil_r.
  - exists []. now rewrite app_nil_r.
  - exists []. now rewrite app_nil_r.
Qed.

Lemma add_twice (s : JsSet.t string) (x : string) :
  JsSet.add String.eqb (JsSet.add String.eqb s x) x = JsSet.add String.eqb s x.
Proof.
  unfold JsSet.add at 1.
  assert (JsSet.has String.eqb (JsSet.add String.eqb s x) x = true) as ->;
    trivial.
  apply (has_In String.eqb String.eqb_eq), (In_add String.eqb String.eqb_eq).
  now right.
Qed.

Lemma step_path_history (st : State) (op : Op) :
  activePath st = last (map path (attemptedPaths st)) "main" ->
  activePath (step st op)
  = last (map path (attemptedPaths (step st op))) "main".
Proof.
  intros H. destruct op; cbn [step].
  - reflexivity.
  - unfold continue. now destruct (getCurrentStep st article).
  - unfold back. now destruct (0 <? currentStepIndex st).
  - exact H.
  - unfold switchToFallback. cbn [fst activePath attemptedPaths].
    rewrite map_app. cbn [map path]. now rewrite last_last.
Qed.

Lemma run_failures (ops : list Op) :
  forall (st : State),
    failureHistory (run ops st)
    = fold_left (fun acc op =>
                   match op with
                   | OpStartArticle _ _ _ => []
                   | OpRecordFailure stepId reasonCategory note now =>
                       acc ++ [mkFailure stepId reasonCategory note now]
                   | _ => acc
                   end) ops (failureHistory st).
Proof.
  induction ops as [| op ops IH]; intros st; simpl; trivial.
  rewrite IH. f_equal. destruct op; simpl; trivial.
  - unfold continue. now destruct (getCurrentStep st article).
  - unfold back. now destruct (0 <? currentStepIndex st).
Qed.

End NavigationFacts.

(** X8.  The getters of the runner agree: [getTotalSteps] is the length of
    [getStepsForActivePath], [getCurrentStep] is the step of that path at
    [currentStepIndex], and it is null exactly when [isComplete] is true
    (also for a null article, an unknown fallback identifier or a path
    without steps). *)
Theorem getters_agree (st : StepRunner.State) (article : option Article.t) :
  StepRunner.getTotalSteps st article
  = List.length (StepRunner.getStepsForActivePath st article)
  /\ StepRunner.getCurrentStep st article
     = nth_error (StepRunner.getStepsForActivePath st article)
                 (StepRunner.currentStepIndex st)
  /\ (StepRunner.getCurrentStep st article = None
      <-> StepRunner.isComplete st article = true).
Proof.
  split; [apply NavigationFacts.getTotalSteps_length |].
  split; [apply NavigationFacts.getCurrentStep_nth |].
  apply NavigationFacts.getCurrentStep_None.
Qed.

(** X9.  [startArticle] discards whatever the runner held: afterwards no
    step is completed, no failure is recorded and the only attempted path
    is "main"; it returns the number of main steps and the first main step
    (null if there is none), and the new state is complete exactly when the
    article has no main step. *)
Theorem startArticle_fresh_session
        (articleId : Z) (article : Article.t) (now : string)
        (st : StepRunner.State) :
  let st' := fst (StepRunner.startArticle articleId (Some article) now st) in
  let info := snd (StepRunner.startArticle articleId (Some article) now st) in
  StepRunner.completedStepIds st' = []
  /\ StepRunner.failureHistory st' = []
  /\ StepRunner.attemptedPaths st' = [StepRunner.mkAttemptedPath "main" now]
  /\ StepRunner.start_totalSteps info
     = List.length (or_nil (Article.steps article))
  /\ StepRunner.start_currentStep info
     = hd_error (or_nil (Article.steps article))
  /\ (StepRunner.isComplete st' (Some article) = true
      <-> or_nil (Article.steps article) = []).
Proof.
  cbv zeta. unfold StepRunner.startArticle, StepRunner.isComplete,
    StepRunner.getTotalSteps, StepRunner.getCurrentStep,
    StepRunner.getStepsForActivePath.
  cbn [fst snd StepRunner.reset StepRunner.initialState
       StepRunner.completedStepIds StepRunner.failureHistory
       StepRunner.attemptedPaths StepRunner.activePath
       StepRunner.currentStepIndex StepRunner.start_totalSteps
       StepRunner.start_currentStep String.eqb Ascii.eqb Bool.eqb andb app].
  destruct (Article.steps article) as [[| s l] |]; cbn; repeat split;
    trivial; discriminate.
Qed.

(** X10.  As long as every operation is given the same article, the pointer
    never passes the end of the active path: after any such sequence of
    [startArticle], [continue], [back], [recordFailure] and
    [switchToFallback] on a new runner, [currentStepIndex] is at most
    [getTotalSteps]. *)
Theorem currentStepIndex_within_path
        (article : Article.t) (ops : list StepRunner.Op) :
  Forall (Histories.opOn article) ops ->
  StepRunner.currentStepIndex (StepRunner.run ops StepRunner.constructor)
  <= StepRunner.getTotalSteps (StepRunner.run ops StepRunner.constructor)
                              (Some article).
Proof.
  intros Hall. rewrite NavigationFacts.getTotalSteps_length.
  apply NavigationFacts.run_keeps_bound; trivial. simpl. lia.
Qed.

Lemma currentStepIndex_within_path_witness :
  StepRunner.currentStepIndex
    (StepRunner.run
       [StepRunner.OpStartArticle 3 (Some Samples.twoFallbacks) "t0";
        StepRunner.OpContinue (Some Samples.twoFallbacks);
        StepRunner.OpContinue (Some Samples.twoFallbacks);
        StepRunner.OpBack;
        StepRunner.OpSwitchToFallback "fb-smtp" (Some Samples.twoFallbacks)
                                      ["Open the account settings"] "t1";
        StepRunner.OpContinue (Some Samples.twoFallbacks)]
       StepRunner.constructor)
  <= StepRunner.getTotalSteps
       (StepRunner.run
          [StepRunner.OpStartArticle 3 (Some Samples.twoFallbacks) "t0";
           StepRunner.OpContinue (Some Samples.twoFallbacks);
           StepRunner.OpContinue (Some Samples.twoFallbacks);
           StepRunner.OpBack;
           StepRunner.OpSwitchToFallback "fb-smtp" (Some Samples.twoFallbacks)
                                         ["Open the account settings"] "t1";
           StepRunner.OpContinue (Some Samples.twoFallbacks)]
          StepRunner.constructor)
       (Some Samples.twoFallbacks).
Proof.
  apply (currentStepIndex_within_path Samples.twoFallbacks).
  repeat constructor.
Defined.

Module LedgerFacts.
Import StepRunner Histories.

(** Adding a list of identifiers to a set appends, each once and in order
    of first occurrence, those that the set does not hold yet. *)
Lemma fold_add_appends (l : list string) :
  forall acc : JsSet.t string,
    exists more,
      fold_left (JsSet.add String.eqb) l acc = acc ++ more
      /\ NoDup more
      /\ forall y, In y more <-> In y l /\ ~ In y acc.
Proof.
  induction l as [| x l IH]; intros acc.
  - exists []. simpl. rewrite app_nil_r.
    split; [reflexivity |]. split; [constructor |].
    intros y. split; [intros [] | intros [[] _]].
  - cbn [fold_left]. unfold JsSet.add at 2.
    destruct (JsSet.has String.eqb acc x) eqn:E.
    + apply (has_In String.eqb String.eqb_eq) in E.
      destruct (IH acc) as [more [Heq [Hnd Hin]]].
      exists more. split; [exact Heq |]. split; [exact Hnd |].
      intros y. rewrite Hin. simpl. split.
      * tauto.
      * intros [[<- | Hy] Hn]; [now elim Hn | tauto].
    + apply (has_false_not_In String.eqb String.eqb_eq) in E.
      destruct (IH (acc ++ [x])) as [more [Heq [Hnd Hin]]].
      exists (x :: more). split; [| split].
      * rewrite Heq, <- app_assoc. reflexivity.
      * constructor; trivial. intros Hx. apply Hin in Hx.
        destruct Hx as [_ Hx]. apply Hx, in_app_iff. right. now left.
      * intros y. split.
        -- intros [<- | Hy].
           ++ split; [now left | exact E].
           ++ apply Hin in Hy. destruct Hy as [Hl Hn]. split; [now right |].
              intros Hacc. apply Hn, in_app_iff. now left.
        -- intros [[<- | Hy] Hn]; [now left |].
           destruct (string_dec x y) as [-> | Hne]; [now left | right].
           apply Hin. split; trivial. intros Happ. apply in_app_iff in Happ.
           destruct Happ as [Hacc | [Hx | []]]; [now elim Hn | now elim Hne].
Qed.

(** The ledger after a run without [startArticle]: the identifiers of the
    steps continued, added to the ledger in call order. *)
Lemma run_ledger (ops : list Op) :
  forall st : State,
    Forall notStart ops ->
    completedStepIds (run ops st)
    = fold_left (JsSet.add String.eqb) (continuedIds ops st)
                (completedStepIds st).
Proof.
  induction ops as [| op ops IH]; intros st Hall; trivial.
  inversion Hall as [| ? ? Hop Hops]; subst.
  cbn [run fold_left continuedIds]. fold (run ops (step st op)).
  rewrite (IH (step st op) Hops), fold_left_app. f_equal.
  destruct op; cbn [notStart] in Hop; try contradiction; cbn [step].
  - unfold continue. now destruct (getCurrentStep st article).
  - unfold back. now destruct (0 <? currentStepIndex st).
  - reflexivity.
  - reflexivity.
Qed.

End LedgerFacts.

(** X11.  Between two [startArticle] calls the completion ledger only
    grows at its end, and only by steps that were continued: after any
    sequence of [continue], [back], [recordFailure] and [switchToFallback],
    [completedStepIds] is what it was, followed, each once and in the order
    in which they were first continued, by exactly the identifiers of the
    steps that were the current step at a call of [continue] and were not
    in the ledger already. *)
Theorem completedStepIds_only_grows
        (ops : list StepRunner.Op) (st : StepRunner.State) :
  Forall Histories.notStart ops ->
  StepRunner.completedStepIds (StepRunner.run ops st)
  = fold_left (JsSet.add String.eqb) (Histories.continuedIds ops st)
              (StepRunner.completedStepIds st)
  /\ exists more,
       StepRunner.completedStepIds (StepRunner.run ops st)
       = StepRunner.completedStepIds st ++ more
       /\ NoDup more
       /\ forall id, In id more
                     <-> In id (Histories.continuedIds ops st)
                         /\ ~ In id (StepRunner.completedStepIds st).
Proof.
  intros Hall. rewrite (LedgerFacts.run_ledger ops st Hall).
  split; [reflexivity |].
  apply LedgerFacts.fold_add_appends.
Qed.

Lemma completedStepIds_only_grows_witness :
  let ops :=
    [StepRunner.OpBack;
     StepRunner.OpContinue (Some Samples.gmail);
     StepRunner.OpContinue (Some Samples.gmail);
     StepRunner.OpRecordFailure "step3" "system-error" (Some "smtp") "t1";
     StepRunner.OpSwitchToFallback "fallback1" (Some Samples.gmail) [] "t2";
     StepRunner.OpContinue (Some Samples.gmail)] in
  let st :=
    StepRunner.continueTimes
      1 (Some Samples.gmail)
      (fst (StepRunner.startArticle 1 (Some Samples.gmail) "t0"
                                    StepRunner.constructor)) in
  Histories.continuedIds ops st = ["step1"; "step2"; "fb1-step1"]
  /\ StepRunner.completedStepIds st = ["step1"]
  /\ StepRunner.completedStepIds (StepRunner.run ops st)
     = ["step1"; "step2"; "fb1-step1"]
  /\ (StepRunner.completedStepIds (StepRunner.run ops st)
      = fold_left (JsSet.add String.eqb) (Histories.continuedIds ops st)
                  (StepRunner.completedStepIds st)
      /\ exists more,
           StepRunner.completedStepIds (StepRunner.run ops st)
           = StepRunner.completedStepIds st ++ more
           /\ NoDup more
           /\ forall id, In id more
                         <-> In id (Histories.continuedIds ops st)
                             /\ ~ In id (StepRunner.completedStepIds st)).
Proof.
  cbv zeta. split; [reflexivity |]. split; [reflexivity |].
  split; [reflexivity |].
  apply (completedStepIds_only_grows
           [StepRunner.OpBack;
            StepRunner.OpContinue (Some Samples.gmail);
            StepRunner.OpContinue (Some Samples.gmail);
            StepRunner.OpRecordFailure "step3" "system-error" (Some "smtp")
                                       "t1";
            StepRunner.OpSwitchToFallback "fallback1" (Some Samples.gmail)
                                          [] "t2";
            StepRunner.OpContinue (Some Samples.gmail)]).
  repeat constructor.
Defined.

(** X12.  Going back does not undo a completion, and completing the same
    step again changes nothing more: when there is a current step,
    [continue] then [back] returns to the same index and the same current
    step with that step's identifier recorded as completed, and a second
    [continue] gives exactly the state the first one gave. *)
Theorem continue_back_continue
        (article : option Article.t) (st : StepRunner.State) (s : Step.t) :
  StepRunner.getCurrentStep st article = Some s ->
  let st1 := fst (StepRunner.continue article st) in
  let st2 := fst (StepRunner.back st1) in
  let st3 := fst (StepRunner.continue article st2) in
  StepRunner.currentStepIndex st2 = StepRunner.currentStepIndex st
  /\ StepRunner.getCurrentStep st2 article = Some s
  /\ In (Step.id s) (StepRunner.completedStepIds st2)
  /\ st3 = st1.
Proof.
  intros Hcur. cbv zeta.
  assert (Hst1 : fst (StepRunner.continue article st)
                 = StepRunner.mkState
                     (StepRunner.selectedArticleId st) (StepRunner.activePath st)
                     (S (StepRunner.currentStepIndex st))
                     (JsSet.add String.eqb (StepRunner.completedStepIds st)
                                (Step.id s))
                     (StepRunner.attemptedPaths st)
                     (StepRunner.failureHistory st)
                     (StepRunner.skippedStepsCount st)).
  { unfold StepRunner.continue. now rewrite Hcur. }
  rewrite Hst1. unfold StepRunner.back.
  cbn [StepRunner.currentStepIndex Nat.ltb Nat.leb fst Nat.sub
       StepRunner.selectedArticleId StepRunner.activePath
       StepRunner.completedStepIds StepRunner.attemptedPaths
       StepRunner.failureHistory StepRunner.skippedStepsCount].
  rewrite Nat.sub_0_r.
  assert (Hcur2 : StepRunner.getCurrentStep
                    (StepRunner.mkState
                       (StepRunner.selectedArticleId st)
                       (StepRunner.activePath st)
                       (StepRunner.currentStepIndex st)
                       (JsSet.add String.eqb (StepRunner.completedStepIds st)
                                  (Step.id s))
                       (StepRunner.attemptedPaths st)
                       (StepRunner.failureHistory st)
                       (StepRunner.skippedStepsCount st)) article = Some s).
  { rewrite <- Hcur. reflexivity. }
  split; [reflexivity |]. split; [exact Hcur2 |]. split.
  - apply (In_add String.eqb String.eqb_eq). now right.
  - unfold StepRunner.continue at 1. rewrite Hcur2.
    cbn [fst StepRunner.currentStepIndex StepRunner.selectedArticleId
         StepRunner.activePath StepRunner.completedStepIds
         StepRunner.attemptedPaths StepRunner.failureHistory
         StepRunner.skippedStepsCount].
    now rewrite NavigationFacts.add_twice.
Qed.

Lemma continue_back_continue_witness :
  let st := fst (StepRunner.startArticle 1 (Some Samples.gmail) "t0"
                                         StepRunner.constructor) in
  let st1 := fst (StepRunner.continue (Some Samples.gmail) st) in
  let st2 := fst (StepRunner.back st1) in
  let st3 := fst (StepRunner.continue (Some Samples.gmail) st2) in
  StepRunner.currentStepIndex st2 = StepRunner.currentStepIndex st
  /\ StepRunner.getCurrentStep st2 (Some Samples.gmail)
     = Some (Samples.mkStep "step1" "Check the outbox for stuck emails")
  /\ In (Step.id (Samples.mkStep "step1" "Check the outbox for stuck emails"))
        (StepRunner.completedStepIds st2)
  /\ st3 = st1.
Proof.
  apply (continue_back_continue
           (Some Samples.gmail)
           (fst (StepRunner.startArticle 1 (Some Samples.gmail) "t0"
                                         StepRunner.constructor))
           (Samples.mkStep "step1" "Check the outbox for stuck emails")).
  reflexivity.
Defined.

(** X13.  The active path is always the path of the last attempted-path
    record: after any sequence of operations on a new runner, [activePath]
    is the [path] of the last element of [attemptedPaths], and "main" when
    that list is empty. *)
Theorem activePath_is_last_attempted (ops : list StepRunner.Op) :
  let st := StepRunner.run ops StepRunner.constructor in
  StepRunner.activePath st
  = last (map StepRunner.path (StepRunner.attemptedPaths st)) "main".
Proof.
  cbv zeta.
  assert (H : forall st,
             StepRunner.activePath st
             = last (map StepRunner.path (StepRunner.attemptedPaths st)) "main" ->
             StepRunner.activePath (StepRunner.run ops st)
             = last (map StepRunner.path
                         (StepRunner.attemptedPaths (StepRunner.run ops st)))
                    "main").
  { induction ops as [| op ops IH]; intros st Hst; simpl; trivial.
    apply IH. now apply NavigationFacts.step_path_history. }
  apply H. reflexivity.
Qed.

(** X14.  The failure history is exactly what [recordFailure] was given
    since the article was last started, in call order: no other operation
    adds, drops or reorders a record, and [startArticle] empties it. *)
Theorem failureHistory_is_recorded_since_start (ops : list StepRunner.Op) :
  StepRunner.failureHistory (StepRunner.run ops StepRunner.constructor)
  = Histories.recordedSinceStart ops.
Proof. apply NavigationFacts.run_failures. Qed.

(** X15.  When some step of the target path is not similar to any completed
    text, [switchToFallback] puts the pointer on the first such step and
    reports as skipped exactly the steps before it, all of which are
    similar to a completed text; steps after the pointer are kept even when
    they are similar too. *)
Theorem switchToFallback_first_not_skipped
        (fallbackId : string) (article : option Article.t)
        (texts : list string) (now : string) (st : StepRunner.State) :
  let steps := Skipping.stepsOfPath fallbackId article in
  let k := Skipping.leadingSimilar texts steps in
  k < List.length steps ->
  let st' := fst (StepRunner.switchToFallback fallbackId article texts now st) in
  let result :=
    snd (StepRunner.switchToFallback fallbackId article texts now st) in
  StepRunner.currentStepIndex st' = k
  /\ StepRunner.skippedStepsCount st' = k
  /\ StepRunner.skippedSteps result = k
  /\ (exists s, StepRunner.switch_currentStep result = Some s
                /\ nth_error steps k = Some s
                /\ Skipping.similarToCompleted texts s = false)
  /\ Forall (fun s => Skipping.similarToCompleted texts s = true)
            (firstn k steps).
Proof.
  cbv zeta. intros Hk.
  destruct (SwitchFacts.switchToFallback_startIndex fallbackId article texts
                                                    now st)
    as [Hidx [Hcount [Hres [Hpath _]]]].
  cbv zeta in Hidx, Hcount, Hres, Hpath.
  replace (Skipping.leadingSimilar texts (Skipping.stepsOfPath fallbackId article)
           =? List.length (Skipping.stepsOfPath fallbackId article))
    with false in Hidx by (symmetry; apply Nat.eqb_neq; lia).
  destruct (NavigationFacts.leadingSimilar_first texts _ Hk)
    as [[s [Hn Hs]] Hall].
  rewrite Hres, Hcount, Hidx. repeat split; trivial.
  exists s. repeat split; trivial.
  change (StepRunner.switch_currentStep
            (snd (StepRunner.switchToFallback fallbackId article texts now st)))
    with (StepRunner.getCurrentStep
            (fst (StepRunner.switchToFallback fallbackId article texts now st))
            article).
  rewrite NavigationFacts.getCurrentStep_nth.
  rewrite SwitchFacts.getStepsForActivePath_path, Hpath, Hidx. exact Hn.
Qed.

Lemma switchToFallback_first_not_skipped_witness :
  let steps := Skipping.stepsOfPath "fb-smtp" (Some Samples.twoFallbacks) in
  let texts := ["Open the account settings"] in
  let k := Skipping.leadingSimilar texts steps in
  let st' := fst (StepRunner.switchToFallback
                    "fb-smtp" (Some Samples.twoFallbacks) texts "t1"
                    StepRunner.constructor) in
  let result := snd (StepRunner.switchToFallback
                       "fb-smtp" (Some Samples.twoFallbacks) texts "t1"
                       StepRunner.constructor) in
  k = 1
  /\ (StepRunner.currentStepIndex st' = k
      /\ StepRunner.skippedStepsCount st' = k
      /\ StepRunner.skippedSteps result = k
      /\ (exists s, StepRunner.switch_currentStep result = Some s
                    /\ nth_error steps k = Some s
                    /\ Skipping.similarToCompleted texts s = false)
      /\ Forall (fun s => Skipping.similarToCompleted texts s = true)
                (firstn k steps)).
Proof.
  cbv zeta. split; [reflexivity |].
  apply (switchToFallback_first_not_skipped
           "fb-smtp" (Some Samples.twoFallbacks)
           ["Open the account settings"] "t1" StepRunner.constructor).
  vm_compute. lia.
Defined.

(** X16.  After [switchToFallback] the run is complete only if the target
    path has no step at all (an unknown fallback identifier, a null article
    or an empty step list); the recorded skip count always equals the new
    pointer; and without completed texts the pointer is 0. *)
Theorem switchToFallback_complete_only_if_empty
        (fallbackId : string) (article : option Article.t)
        (texts : list string) (now : string) (st : StepRunner.State) :
  let st' := fst (StepRunner.switchToFallback fallbackId article texts now st) in
  (StepRunner.isComplete st' article = true
   <-> Skipping.stepsOfPath fallbackId article = [])
  /\ StepRunner.skippedStepsCount st' = StepRunner.currentStepIndex st'
  /\ StepRunner.currentStepIndex
       (fst (StepRunner.switchToFallback fallbackId article [] now st)) = 0.
Proof.
  cbv zeta.
  destruct (SwitchFacts.switchToFallback_startIndex fallbackId article texts
                                                    now st)
    as [Hidx [Hcount [_ [Hpath _]]]].
  destruct (SwitchFacts.switchToFallback_startIndex fallbackId article []
                                                    now st) as [Hidx0 _].
  cbv zeta in Hidx, Hcount, Hpath, Hidx0.
  split; [| split; [exact Hcount |]].
  - unfold StepRunner.isComplete.
    rewrite SwitchFacts.getStepsForActivePath_path, Hpath, Hidx.
    pose proof (NavigationFacts.leadingSimilar_le
                  texts (Skipping.stepsOfPath fallbackId article)) as Hle.
    destruct (Skipping.stepsOfPath fallbackId article) as [| s r] eqn:E.
    + simpl. tauto.
    + split; [| discriminate]. intros H. apply Nat.leb_le in H.
      destruct (Nat.eqb_spec (Skipping.leadingSimilar texts (s :: r))
                             (List.length (s :: r))); simpl in *; lia.
  - rewrite Hidx0.
    destruct (Skipping.stepsOfPath fallbackId article) as [| s r];
      reflexivity.
Qed.

(* ================================================================== *)
(** ** Further properties: fallback selector *)
(* ================================================================== *)

Module SelectMore.
Import JsString Dedupe StepRunner Selection SelectFacts.

Lemma firstBest_In (score : Fallback.t -> nat) (l : list Fallback.t)
      (fb : Fallback.t) :
  firstBest score l fb -> In fb l.
Proof.
  intros [before [after [-> _]]]. apply in_app_iff. right. now left.
Qed.

Lemma candidates_In (article : Article.t) (reasonCategory : string)
      (fb : Fallback.t) :
  In fb (candidates article reasonCategory)
  <-> In fb (or_nil (Article.fallbacks article))
      /\ Fallback.reason_category fb = reasonCategory.
Proof.
  unfold candidates. rewrite filter_In, String.eqb_eq. tauto.
Qed.

Lemma findFallbackInArticle_Some (article : Article.t)
      (reasonCategory : string) (queryTokens : list string) (fb : Fallback.t) :
  findFallbackInArticle article reasonCategory queryTokens = Some fb ->
  In fb (candidates article reasonCategory).
Proof.
  intros H.
  pose proof (findFallbackInArticle_candidates article reasonCategory
                                               queryTokens) as Hc.
  cbv zeta in Hc. rewrite H in Hc. eapply firstBest_In. exact Hc.
Qed.

Lemma findFallbackInArticle_None (article : Article.t)
      (reasonCategory : string) (queryTokens : list string) :
  findFallbackInArticle article reasonCategory queryTokens = None
  <-> candidates article reasonCategory = [].
Proof.
  pose proof (findFallbackInArticle_candidates article reasonCategory
                                               queryTokens) as Hc.
  cbv zeta in Hc.
  destruct (findFallbackInArticle article reasonCategory queryTokens)
    as [fb |].
  - split; [discriminate |]. intros E. apply firstBest_In in Hc.
    rewrite E in Hc. now elim Hc.
  - tauto.
Qed.

(** The cross-article search stops at the first article, in corpus order,
    that is not the current one and has a candidate. *)
Lemma findFallbackAcrossArticles_first (reasonCategory : string)
      (queryTokens : list string) (currentArticleId : Z)
      (allArticles : list Article.t) :
  match findFallbackAcrossArticles allArticles reasonCategory queryTokens
                                   currentArticleId with
  | Some (a, fb) =>
      exists before after,
        allArticles = before ++ a :: after
        /\ (forall b, In b before ->
                      Article.id b = currentArticleId
                      \/ candidates b reasonCategory = [])
        /\ Article.id a <> currentArticleId
        /\ findFallbackInArticle a reasonCategory queryTokens = Some fb
  | None =>
      forall b, In b allArticles ->
                Article.id b = currentArticleId
                \/ candidates b reasonCategory = []
  end.
Proof.
  induction allArticles as [| a others IH]; simpl.
  - intros b [].
  - destruct (Z.eqb_spec (Article.id a) currentArticleId) as [Heq | Hne].
    + destruct (findFallbackAcrossArticles others reasonCategory queryTokens
                                           currentArticleId) as [[a' fb] |].
      * destruct IH as [before [after [-> [Hb [Hid Hf]]]]].
        exists (a :: before), after. repeat split; trivial.
        intros b [<- | Hin]; auto.
      * intros b [<- | Hin]; auto.
    + destruct (findFallbackInArticle a reasonCategory queryTokens)
        as [fb |] eqn:E.
      * exists [], others. repeat split; trivial. intros b [].
      * apply findFallbackInArticle_None in E.
        destruct (findFallbackAcrossArticles others reasonCategory
                                             queryTokens currentArticleId)
          as [[a' fb] |].
        -- destruct IH as [before [after [-> [Hb [Hid Hf]]]]].
           exists (a :: before), after. repeat split; trivial.
           intros b [<- | Hin]; auto.
        -- intros b [<- | Hin]; auto.
Qed.

Lemma selectFallback_classified
      (currentArticle : Article.t) (allArticles : list Article.t)
      (reasonCategory : string) (failureNote : option string) :
  match selectFallback currentArticle allArticles reasonCategory
                       failureNote with
  | SameArticle fb a =>
      a = currentArticle
      /\ In fb (candidates currentArticle reasonCategory)
  | CrossArticle fb a =>
      candidates currentArticle reasonCategory = []
      /\ In a allArticles
      /\ Article.id a <> Article.id currentArticle
      /\ In fb (candidates a reasonCategory)
  | Escalate e =>
      e = Article.escalation currentArticle
      /\ candidates currentArticle reasonCategory = []
      /\ forall b, In b allArticles ->
                   Article.id b <> Article.id currentArticle ->
                   candidates b reasonCategory = []
  end.
Proof.
  unfold selectFallback.
  destruct (findFallbackInArticle currentArticle reasonCategory _)
    as [f |] eqn:E.
  - split; trivial. eapply findFallbackInArticle_Some. exact E.
  - apply findFallbackInArticle_None in E.
    match goal with |- context [findFallbackAcrossArticles ?l ?c ?q ?i] =>
      pose proof (findFallbackAcrossArticles_first c q i l) as H;
      destruct (findFallbackAcrossArticles l c q i) as [[a fb] |]
    end.
    + destruct H as [before [after [Heq [_ [Hid Hf]]]]].
      repeat split; trivial.
      * rewrite Heq. apply in_app_iff. right. now left.
      * eapply findFallbackInArticle_Some. exact Hf.
    + repeat split; trivial. intros b Hin Hid.
      destruct (H b Hin) as [Heq | Hnone]; [now elim Hid | exact Hnone].
Qed.

End SelectMore.

(** X17.  [findFallbackInArticle] answers with a fallback of the article
    that has exactly the requested reason category, and answers null only
    when the article has no such fallback (also when its fallback list is
    missing or empty). *)
Theorem findFallbackInArticle_exact
        (article : Article.t) (reasonCategory : string)
        (queryTokens : list string) :
  match StepRunner.findFallbackInArticle article reasonCategory queryTokens with
  | Some fb =>
      In fb (or_nil (Article.fallbacks article))
      /\ Fallback.reason_category fb = reasonCategory
  | None =>
      forall fb, In fb (or_nil (Article.fallbacks article)) ->
                 Fallback.reason_category fb <> reasonCategory
  end.
Proof.
  destruct (StepRunner.findFallbackInArticle article reasonCategory queryTokens)
    as [fb |] eqn:E.
  - apply SelectMore.candidates_In. eapply SelectMore.findFallbackInArticle_Some.
    exact E.
  - apply SelectMore.findFallbackInArticle_None in E. intros fb Hin Hcat.
    assert (In fb (Selection.candidates article reasonCategory)) as H
        by (apply SelectMore.candidates_In; now split).
    rewrite E in H. exact H.
Qed.

(** X18.  When exactly one fallback of the current article has the given
    reason category, [selectFallback] selects it in the same-article tier,
    whatever the failure note and the rest of the corpus. *)
Theorem selectFallback_single_candidate
        (currentArticle : Article.t) (allArticles : list Article.t)
        (reasonCategory : string) (failureNote : option string)
        (fb : Fallback.t) :
  Selection.candidates currentArticle reasonCategory = [fb] ->
  StepRunner.selectFallback currentArticle allArticles reasonCategory
                            failureNote
  = StepRunner.SameArticle fb currentArticle.
Proof.
  intros Hc. unfold StepRunner.selectFallback.
  destruct (StepRunner.findFallbackInArticle currentArticle reasonCategory _)
    as [f |] eqn:E.
  - apply SelectMore.findFallbackInArticle_Some in E. rewrite Hc in E.
    destruct E as [<- | []]. reflexivity.
  - apply SelectMore.findFallbackInArticle_None in E. congruence.
Qed.

Lemma selectFallback_single_candidate_witness :
  StepRunner.selectFallback Samples.gmail [Samples.printer; Samples.twoFallbacks]
                            "system-error" (Some "quota exceeded")
  = StepRunner.SameArticle
      (Fallback.mk "fallback1" "system-error"
         (Some ["smtp"; "settings"; "configuration"; "error"])
         (Some [Samples.mkStep "fb1-step1"
                  "Reset SMTP Server configuration to default (smtp.gmail.com) and verify Port Number is 587";
                Samples.mkStep "fb1-step2"
                  "Restart email client and verify Terminal ID is logged"]))
      Samples.gmail.
Proof.
  apply (selectFallback_single_candidate
           Samples.gmail [Samples.printer; Samples.twoFallbacks]
           "system-error" (Some "quota exceeded")).
  reflexivity.
Defined.

(** X19.  [findFallbackAcrossArticles] is a first-match search in corpus
    order: the article it returns is the first one whose identifier differs
    from the current article's and that has a fallback of the category, and
    the fallback returned is that article's best candidate (highest keyword
    overlap, first on ties); it returns null only when no such article
    exists.  Articles carrying the current identifier are never examined. *)
Theorem findFallbackAcrossArticles_first_match
        (allArticles : list Article.t) (reasonCategory : string)
        (queryTokens : list string) (currentArticleId : Z) :
  match StepRunner.findFallbackAcrossArticles allArticles reasonCategory
                                              queryTokens currentArticleId with
  | Some (a, fb) =>
      (exists before after,
          allArticles = before ++ a :: after
          /\ forall b, In b before ->
                       Article.id b = currentArticleId
                       \/ Selection.candidates b reasonCategory = [])
      /\ Article.id a <> currentArticleId
      /\ Selection.firstBest
           (fun g => Dedupe.calculateKeywordOverlap
                       (or_nil (Fallback.trigger_keywords g)) queryTokens)
           (Selection.candidates a reasonCategory) fb
  | None =>
      forall b, In b allArticles ->
                Article.id b = currentArticleId
                \/ Selection.candidates b reasonCategory = []
  end.
Proof.
  pose proof (SelectMore.findFallbackAcrossArticles_first
                reasonCategory queryTokens currentArticleId allArticles) as H.
  destruct (StepRunner.findFallbackAcrossArticles allArticles reasonCategory
                                                  queryTokens currentArticleId)
    as [[a fb] |]; trivial.
  destruct H as [before [after [Heq [Hb [Hid Hf]]]]].
  split; [exists before, after; now split |]. split; trivial.
  pose proof (SelectFacts.findFallbackInArticle_candidates
                a reasonCategory queryTokens) as Hc.
  cbv zeta in Hc. now rewrite Hf in Hc.
Qed.

(** X20.  The three answers of [selectFallback] tell the three cases apart.
    A same-article answer carries the current article and one of its
    fallbacks of the category.  A cross-article answer is given only when
    the current article has no fallback of the category, and carries a
    corpus article with another identifier and one of that article's
    fallbacks of the category.  An escalation answer is given only when
    neither the current article nor any corpus article with another
    identifier has a fallback of the category. *)
Theorem selectFallback_cases
        (currentArticle : Article.t) (allArticles : list Article.t)
        (reasonCategory : string) (failureNote : option string) :
  match StepRunner.selectFallback currentArticle allArticles reasonCategory
                                  failureNote with
  | StepRunner.SameArticle fb a =>
      a = currentArticle
      /\ In fb (Selection.candidates currentArticle reasonCategory)
  | StepRunner.CrossArticle fb a =>
      Selection.candidates currentArticle reasonCategory = []
      /\ In a allArticles
      /\ Article.id a <> Article.id currentArticle
      /\ In fb (Selection.candidates a reasonCategory)
  | StepRunner.Escalate e =>
      e = Article.escalation currentArticle
      /\ Selection.candidates currentArticle reasonCategory = []
      /\ forall b, In b allArticles ->
                   Article.id b <> Article.id currentArticle ->
                   Selection.candidates b reasonCategory = []
  end.
Proof. apply SelectMore.selectFallback_classified. Qed.

(** X21.  With a failure note that holds no token (missing, empty, or only
    punctuation and white space) every candidate scores 0, so the first
    fallback of the category in the article's declared order is selected. *)
Theorem selectFallback_blank_note_first_candidate
        (currentArticle : Article.t) (allArticles : list Article.t)
        (reasonCategory : string) (failureNote : option string)
        (fb : Fallback.t) (rest : list Fallback.t) :
  Dedupe.normalizeToTokens (Selection.noteText failureNote) = [] ->
  Selection.candidates currentArticle reasonCategory = fb :: rest ->
  StepRunner.selectFallback currentArticle allArticles reasonCategory
                            failureNote
  = StepRunner.SameArticle fb currentArticle.
Proof.
  intros Htok Hc. unfold StepRunner.selectFallback.
  fold (Selection.noteText failureNote). rewrite Htok.
  pose proof (SelectFacts.findFallbackInArticle_candidates
                currentArticle reasonCategory []) as H.
  cbv zeta in H.
  destruct (StepRunner.findFallbackInArticle currentArticle reasonCategory [])
    as [f |].
  - destruct H as [before [after [Heq [Hlt _]]]].
    destruct before as [| g before].
    + rewrite Hc in Heq. simpl in Heq. now inversion Heq.
    + specialize (Hlt g (or_introl eq_refl)).
      rewrite !SelectFacts.calculateKeywordOverlap_count in Hlt.
      assert (forall l : list string,
                 filter (fun keyword : string =>
                           existsb (String.eqb (JsString.toLowerCase keyword)) [])
                        l = []) as Hnil
          by (induction l; simpl; trivial).
      rewrite !Hnil in Hlt. simpl in Hlt. lia.
  - congruence.
Qed.

Lemma selectFallback_blank_note_first_candidate_witness :
  StepRunner.selectFallback Samples.twoFallbacks [Samples.gmail]
                            "system-error" (Some " ?! ")
  = StepRunner.SameArticle
      (Fallback.mk "fb-smtp" "system-error" (Some ["smtp"; "port"])
         (Some [Samples.mkStep "a1" "Open the account settings";
                Samples.mkStep "a2" "Set the SMTP port to 587"]))
      Samples.twoFallbacks.
Proof.
  apply (selectFallback_blank_note_first_candidate
           Samples.twoFallbacks [Samples.gmail] "system-error" (Some " ?! ")
           (Fallback.mk "fb-smtp" "system-error" (Some ["smtp"; "port"])
              (Some [Samples.mkStep "a1" "Open the account settings";
                     Samples.mkStep "a2" "Set the SMTP port to 587"]))
           [Fallback.mk "fb-quota" "system-error" (Some ["quota"; "space"])
              (Some [Samples.mkStep "b1" "Empty the deleted items folder"])]).
  - reflexivity.
  - reflexivity.
Defined.

(* ================================================================== *)
(** ** Further properties: retrieval *)
(* ================================================================== *)

Module RetrievalMore.
Import JsString Retrieval Ranking RetrievalFacts.

Lemma article_scoreArticle (queryLower : string) (queryTokens : list string)
      (a : Article.t) :
  article (scoreArticle queryLower queryTokens a) = a.
Proof. now destruct (scoreArticle_terms queryLower queryTokens a). Qed.

Lemma filter_insertResult (k : Z) (r : RetrievalResult)
      (l : list RetrievalResult) :
  filter (fun x => (score x =? k)%Z) (insertResult r l)
  = if (score r =? k)%Z then r :: filter (fun x => (score x =? k)%Z) l
    else filter (fun x => (score x =? k)%Z) l.
Proof.
  induction l as [| x l IH]; simpl.
  - now destruct (score r =? k)%Z.
  - unfold compareResults.
    destruct (Z.ltb_spec 0 (score x - score r)) as [Hlt | Hge]; simpl.
    + rewrite IH.
      destruct (Z.eqb_spec (score r) k) as [Hr | Hr];
        destruct (Z.eqb_spec (score x) k) as [Hx | Hx]; trivial. lia.
    + now destruct (score r =? k)%Z.
Qed.

(** The sort is stable: it does not reorder results of equal score. *)
Lemma filter_sortResults (k : Z) (l : list RetrievalResult) :
  filter (fun x => (score x =? k)%Z) (sortResults l)
  = filter (fun x => (score x =? k)%Z) l.
Proof.
  induction l as [| r l IH]; simpl; trivial.
  rewrite filter_insertResult, IH. reflexivity.
Qed.

Lemma map_article_filter (queryLower : string) (queryTokens : list string)
      (P : RetrievalResult -> bool) (articles : list Article.t) :
  map article (filter P (map (scoreArticle queryLower queryTokens) articles))
  = filter (fun a => P (scoreArticle queryLower queryTokens a)) articles.
Proof.
  induction articles as [| a l IH]; simpl; trivial.
  destruct (P (scoreArticle queryLower queryTokens a)); simpl.
  - now rewrite article_scoreArticle, IH.
  - exact IH.
Qed.

Lemma NoDup_map_filter {A B : Type} (f : A -> B) (P : A -> bool)
      (l : list A) :
  NoDup (map f l) -> NoDup (map f (filter P l)).
Proof.
  induction l as [| x l IH]; simpl; intros H; trivial.
  inversion H as [| ? ? Hx Hl]; subst.
  destruct (P x); simpl; [| now apply IH].
  constructor; [| now apply IH].
  intros Hin. apply Hx. apply in_map_iff in Hin.
  destruct Hin as [y [Hy Hin]]. apply filter_In in Hin.
  apply in_map_iff. exists y. tauto.
Qed.

Lemma NoDup_firstn {A : Type} (n : nat) (l : list A) :
  NoDup l -> NoDup (firstn n l).
Proof.
  intros H. rewrite <- (firstn_skipn n l) in H.
  now apply NoDup_app_remove_r in H.
Qed.

Lemma head_is_best (r : RetrievalResult) (rest : list RetrievalResult) :
  StronglySorted descending (r :: rest) ->
  forall x, In x (r :: rest) -> (score x <= score r)%Z.
Proof.
  intros Hs x [<- | Hin]; [lia |].
  inversion Hs as [| ? ? _ Hall]; subst. rewrite Forall_forall in Hall.
  now apply Hall.
Qed.

Lemma fullRanking_sorted (articles : list Article.t) (query : string) :
  StronglySorted descending (fullRanking articles query).
Proof. apply sortResults_sorted. Qed.

End RetrievalMore.

(** X22.  Ties keep corpus order: for every score [k] above 0, the returned
    ranking lists the articles of score [k] in the order in which the corpus
    holds them (the sort is stable), and the positively scored articles of
    the corpus are all in the ranking before truncation. *)
Theorem fullRanking_ties_in_corpus_order
        (articles : list Article.t) (query : string) (k : Z) :
  let queryLower := JsString.toLowerCase query in
  let queryTokens := JsString.split_ws queryLower in
  map Retrieval.article
      (filter (fun r => (Retrieval.score r =? k)%Z)
              (Ranking.fullRanking articles query))
  = filter (fun a =>
              (Retrieval.score
                 (Retrieval.scoreArticle queryLower queryTokens a) =? k)%Z
              && (0 <? Retrieval.score
                         (Retrieval.scoreArticle queryLower queryTokens a))%Z)
           articles.
Proof.
  cbv zeta. unfold Ranking.fullRanking. cbv zeta.
  rewrite RetrievalMore.filter_sortResults.
  assert (Hff : forall l : list Retrieval.RetrievalResult,
             filter (fun r => (Retrieval.score r =? k)%Z)
                    (filter (fun r => (0 <? Retrieval.score r)%Z) l)
             = filter (fun r => (Retrieval.score r =? k)%Z
                                && (0 <? Retrieval.score r)%Z) l).
  { induction l as [| r l IH]; simpl; trivial.
    destruct (0 <? Retrieval.score r)%Z; simpl.
    - rewrite andb_true_r. destruct (Retrieval.score r =? k)%Z; now rewrite IH.
    - rewrite andb_false_r. exact IH. }
  rewrite Hff. now rewrite RetrievalMore.map_article_filter.
Qed.

(** X23.  [search] does not depend on the letter case of the query. *)
Theorem search_query_case_insensitive
        (articles : list Article.t) (query : string) (limit : option Z) :
  Retrieval.search articles (JsString.toLowerCase query) limit
  = Retrieval.search articles query limit.
Proof.
  unfold Retrieval.search. now rewrite TokenFacts.toLowerCase_idem.
Qed.

(** X24.  [getArticle] returns the first article of the provider that has
    the given identifier, and null exactly when no article has it. *)
Theorem getArticle_first_with_id (articles : list Article.t) (id : Z) :
  match Retrieval.getArticle articles id with
  | Some a =>
      Article.id a = id
      /\ exists before after,
           articles = before ++ a :: after
           /\ forall b, In b before -> Article.id b <> id
  | None => forall b, In b articles -> Article.id b <> id
  end.
Proof.
  unfold Retrieval.getArticle.
  induction articles as [| x l IH]; simpl.
  - intros b [].
  - destruct (Z.eqb_spec (Article.id x) id) as [Heq | Hne].
    + split; trivial. exists [], l. split; trivial. intros b [].
    + destruct (find (fun a => (Article.id a =? id)%Z) l) as [a |].
      * destruct IH as [Hid [before [after [-> Hb]]]]. split; trivial.
        exists (x :: before), after. split; trivial.
        intros b [<- | Hin]; auto.
      * intros b [<- | Hin]; auto.
Qed.

(** X25.  For a limit of at least 1 (3 when none is given), the results of
    [search] are of low confidence exactly when every article of the corpus
    scores below 9 for the query; in particular an empty result list is of
    low confidence. *)
Theorem isLowConfidence_search
        (articles : list Article.t) (query : string) (limit : option Z) :
  (1 <= Ranking.limitOf limit)%Z ->
  (Retrieval.isLowConfidence (Some (Retrieval.search articles query limit))
   = true
   <-> forall a, In a articles ->
                 (Retrieval.score
                    (Retrieval.scoreArticle
                       (JsString.toLowerCase query)
                       (JsString.split_ws (JsString.toLowerCase query)) a)
                  < Retrieval.LOW_CONFIDENCE_THRESHOLD)%Z).
Proof.
  intros Hlim. rewrite RetrievalFacts.search_fullRanking.
  unfold Retrieval.slice0.
  replace (Ranking.limitOf limit <? 0)%Z with false
    by (symmetry; apply Z.ltb_ge; lia).
  destruct (Z.to_nat (Ranking.limitOf limit)) as [| n] eqn:En; [lia |].
  pose proof (RetrievalMore.fullRanking_sorted articles query) as Hs.
  pose proof (RetrievalFacts.In_fullRanking articles query) as Hin.
  unfold Retrieval.LOW_CONFIDENCE_THRESHOLD in *.
  destruct (Ranking.fullRanking articles query) as [| r rest].
  - simpl. split; trivial. intros _ a Ha.
    destruct (Z.lt_ge_cases
                0 (Retrieval.score
                     (Retrieval.scoreArticle
                        (JsString.toLowerCase query)
                        (JsString.split_ws (JsString.toLowerCase query)) a)))
      as [Hpos | Hle]; [| lia].
    exfalso.
    apply (proj2 (Hin (Retrieval.scoreArticle
                         (JsString.toLowerCase query)
                         (JsString.split_ws (JsString.toLowerCase query)) a))).
    split; [exact Hpos |]. now exists a.
  - cbn [firstn Retrieval.isLowConfidence List.length Nat.eqb nth_error].
    unfold Retrieval.LOW_CONFIDENCE_THRESHOLD.
    rewrite Z.ltb_lt. split.
    + intros Hr a Ha.
      destruct (Z.lt_ge_cases
                  0 (Retrieval.score
                       (Retrieval.scoreArticle
                          (JsString.toLowerCase query)
                          (JsString.split_ws (JsString.toLowerCase query)) a)))
        as [Hpos | Hle]; [| lia].
      assert (In (Retrieval.scoreArticle
                    (JsString.toLowerCase query)
                    (JsString.split_ws (JsString.toLowerCase query)) a)
                 (r :: rest)) as Hx
          by (apply Hin; split; [exact Hpos | now exists a]).
      pose proof (RetrievalMore.head_is_best r rest Hs _ Hx). lia.
    + intros Hall.
      destruct (proj1 (Hin r) (or_introl eq_refl)) as [_ [a [Ha ->]]].
      now apply Hall.
Qed.

Lemma isLowConfidence_search_witness :
  Retrieval.isLowConfidence
    (Some (Retrieval.search [Samples.printer; Samples.gmail]
                            "email not sending smtp" None)) = true
  <-> forall a, In a [Samples.printer; Samples.gmail] ->
                (Retrieval.score
                   (Retrieval.scoreArticle
                      (JsString.toLowerCase "email not sending smtp")
                      (JsString.split_ws
                         (JsString.toLowerCase "email not sending smtp")) a)
                 < Retrieval.LOW_CONFIDENCE_THRESHOLD)%Z.
Proof.
  apply (isLowConfidence_search [Samples.printer; Samples.gmail]
                                "email not sending smtp" None).
  vm_compute. discriminate.
Defined.

(** X26.  [search] returns no article twice: when the identifiers of the
    corpus are pairwise distinct, so are those of the returned articles. *)
Theorem search_no_article_twice
        (articles : list Article.t) (query : string) (limit : option Z) :
  NoDup (map Article.id articles) ->
  NoDup (map (fun r => Article.id (Retrieval.article r))
             (Retrieval.search articles query limit)).
Proof.
  intros Hnd. rewrite RetrievalFacts.search_fullRanking.
  destruct (RetrievalFacts.slice0_firstn
              (Ranking.fullRanking articles query) (Ranking.limitOf limit))
    as [n [-> _]].
  rewrite <- firstn_map. apply RetrievalMore.NoDup_firstn.
  unfold Ranking.fullRanking. cbv zeta.
  eapply Permutation_NoDup.
  - apply Permutation_map. apply RetrievalFacts.sortResults_perm.
  - rewrite <- (map_map Retrieval.article Article.id).
    rewrite RetrievalMore.map_article_filter.
    now apply RetrievalMore.NoDup_map_filter.
Qed.

Lemma search_no_article_twice_witness :
  NoDup (map (fun r => Article.id (Retrieval.article r))
             (Retrieval.search [Samples.printer; Samples.gmail;
                                Samples.twoFallbacks] "email printer" None)).
Proof.
  apply (search_no_article_twice
           [Samples.printer; Samples.gmail; Samples.twoFallbacks]
           "email printer" None).
  simpl. repeat constructor; simpl; intuition discriminate.
Defined.

(* ================================================================== *)
(** ** Further properties: switching to a selected fallback, and the
       failure handler of the side panel *)
(* ================================================================== *)

Module PanelFacts.
Import StepRunner SidePanel Skipping Selection Histories Runs.

Lemma find_unique (fbs : list Fallback.t) (fb : Fallback.t) :
  In fb fbs -> NoDup (map Fallback.id fbs) ->
  find (fun f => Fallback.id f =? Fallback.id fb)%string fbs = Some fb.
Proof.
  induction fbs as [| x l IH]; intros Hin Hnd; [now elim Hin |].
  simpl in *. inversion Hnd as [| ? ? Hx Hl]; subst.
  destruct (String.eqb_spec (Fallback.id x) (Fallback.id fb)) as [Heq | Hne].
  - destruct Hin as [-> | Hin]; trivial.
    exfalso. apply Hx. rewrite Heq. now apply in_map.
  - destruct Hin as [-> | Hin]; [now elim Hne | now apply IH].
Qed.



End PanelFacts.

(** X27.  When the fallback identifiers of an article are pairwise distinct
    and the selected fallback is not named "main", [switchToFallback] with
    that fallback's identifier makes the fallback's own steps the active
    path.  (The path is looked up by identifier: the first fallback with
    that identifier is taken, and the identifier "main" names the main
    path.) *)
Theorem switchToFallback_activates_selected_steps
        (article : Article.t) (fb : Fallback.t) (texts : list string)
        (now : string) (st : StepRunner.State) :
  In fb (or_nil (Article.fallbacks article)) ->
  NoDup (Histories.fallbackIds article) ->
  Fallback.id fb <> "main" ->
  let st' := fst (StepRunner.switchToFallback (Fallback.id fb) (Some article)
                                              texts now st) in
  StepRunner.getStepsForActivePath st' (Some article)
  = or_nil (Fallback.steps fb)
  /\ StepRunner.getTotalSteps st' (Some article)
     = List.length (or_nil (Fallback.steps fb)).
Proof.
  intros Hin Hnd Hmain. cbv zeta.
  rewrite NavigationFacts.getTotalSteps_length.
  assert (H : StepRunner.getStepsForActivePath
                (fst (StepRunner.switchToFallback (Fallback.id fb)
                        (Some article) texts now st)) (Some article)
              = or_nil (Fallback.steps fb)).
  { rewrite SwitchFacts.getStepsForActivePath_path.
    unfold StepRunner.switchToFallback. cbn [fst StepRunner.activePath].
    unfold Skipping.stepsOfPath, StepRunner.getStepsForActivePath,
      StepRunner.activeFallback. cbn [StepRunner.activePath].
    apply String.eqb_neq in Hmain. rewrite Hmain.
    unfold Histories.fallbackIds in Hnd.
    destruct (Article.fallbacks article) as [fbs |]; [| now elim Hin].
    cbn [or_nil] in *. now rewrite (PanelFacts.find_unique fbs fb Hin Hnd). }
  now rewrite H.
Qed.

Lemma switchToFallback_activates_selected_steps_witness :
  let fb :=
    Fallback.mk "fb-quota" "system-error" (Some ["quota"; "space"])
      (Some [Samples.mkStep "b1" "Empty the deleted items folder"]) in
  let st' := fst (StepRunner.switchToFallback
                    (Fallback.id fb) (Some Samples.twoFallbacks) [] "t1"
                    StepRunner.constructor) in
  StepRunner.getStepsForActivePath st' (Some Samples.twoFallbacks)
  = or_nil (Fallback.steps fb)
  /\ StepRunner.getTotalSteps st' (Some Samples.twoFallbacks)
     = List.length (or_nil (Fallback.steps fb)).
Proof.
  apply (switchToFallback_activates_selected_steps
           Samples.twoFallbacks
           (Fallback.mk "fb-quota" "system-error" (Some ["quota"; "space"])
              (Some [Samples.mkStep "b1" "Empty the deleted items folder"]))
           [] "t1" StepRunner.constructor).
  - simpl. right. now left.
  - simpl. repeat constructor; simpl; intuition discriminate.
  - discriminate.
Defined.



(** X29.  The failure handler fails (reading [step.id] of a null step)
    exactly when the run is complete for the current article.  Otherwise it
    appends one failure record, naming the current step, and leaves
    [completedStepIds] and [selectedArticleId] as they were; on escalation
    it also leaves the path and the pointer where they were and returns the
    current article's escalation record; on a same-article switch the new
    path is a fallback of the current article with the reported reason; on
    a cross-article switch the panel's current article becomes a corpus
    article with another identifier and the new path is one of its
    fallbacks with the reported reason. *)
Theorem handleFailureSubmit_outcomes
        (currentArticle : Article.t) (articles : list Article.t)
        (reason note now1 now2 : string) (st : StepRunner.State) :
  match SidePanel.handleFailureSubmit currentArticle articles reason note
                                      now1 now2 st with
  | None => StepRunner.isComplete st (Some currentArticle) = true
  | Some (st', currentArticle', outcome) =>
      (exists step,
          StepRunner.getCurrentStep st (Some currentArticle) = Some step
          /\ StepRunner.failureHistory st'
             = StepRunner.failureHistory st
               ++ [StepRunner.mkFailure (Step.id step) reason (Some note) now1])
      /\ StepRunner.isComplete st (Some currentArticle) = false
      /\ StepRunner.completedStepIds st' = StepRunner.completedStepIds st
      /\ StepRunner.selectedArticleId st' = StepRunner.selectedArticleId st
      /\ match outcome with
         | SidePanel.Escalated e =>
             e = Article.escalation currentArticle
             /\ currentArticle' = currentArticle
             /\ StepRunner.activePath st' = StepRunner.activePath st
             /\ StepRunner.currentStepIndex st' = StepRunner.currentStepIndex st
         | SidePanel.SwitchedSameArticle fb _ =>
             currentArticle' = currentArticle
             /\ StepRunner.activePath st' = Fallback.id fb
             /\ In fb (Selection.candidates currentArticle reason)
         | SidePanel.SwitchedCrossArticle fb _ =>
             In currentArticle' articles
             /\ Article.id currentArticle' <> Article.id currentArticle
             /\ StepRunner.activePath st' = Fallback.id fb
             /\ In fb (Selection.candidates currentArticle' reason)
         end
  end.
Proof.
  unfold SidePanel.handleFailureSubmit.
  destruct (StepRunner.getCurrentStep st (Some currentArticle)) as [step |] eqn:E.
  - assert (Hnc : StepRunner.isComplete st (Some currentArticle) = false).
    { destruct (StepRunner.isComplete st (Some currentArticle)) eqn:Ec; trivial.
      apply NavigationFacts.getCurrentStep_None in Ec. congruence. }
    unfold Retrieval.getAllArticles.
    pose proof (SelectMore.selectFallback_classified
                  currentArticle articles reason (Some note)) as Hsel.
    destruct (StepRunner.selectFallback currentArticle articles reason
                                        (Some note)) as [fb a | fb a | e].
    + destruct Hsel as [-> Hfb].
      match goal with |- context [StepRunner.switchToFallback ?f ?a ?t ?n ?s] =>
        destruct (SwitchFacts.switchToFallback_startIndex f a t n s)
          as [_ [_ [_ [Hp [Hs Hc]]]]];
        assert (Hf : StepRunner.failureHistory
                       (fst (StepRunner.switchToFallback f a t n s))
                     = StepRunner.failureHistory s) by reflexivity;
        destruct (StepRunner.switchToFallback f a t n s) as [st2 res]
      end.
      cbn [fst] in *. rewrite Hf, Hc, Hs, Hp.
      repeat split; trivial. exists step. now split.
    + destruct Hsel as [_ [Hina [Hid Hfb]]].
      match goal with |- context [StepRunner.switchToFallback ?f ?a ?t ?n ?s] =>
        destruct (SwitchFacts.switchToFallback_startIndex f a t n s)
          as [_ [_ [_ [Hp [Hs Hc]]]]];
        assert (Hf : StepRunner.failureHistory
                       (fst (StepRunner.switchToFallback f a t n s))
                     = StepRunner.failureHistory s) by reflexivity;
        destruct (StepRunner.switchToFallback f a t n s) as [st2 res]
      end.
      cbn [fst] in *. rewrite Hf, Hc, Hs, Hp.
      repeat split; trivial. exists step. now split.
    + destruct Hsel as [-> _]. repeat split; trivial.
      exists step. now split.
  - now apply NavigationFacts.getCurrentStep_None.
Qed.

(* ================================================================== *)
(** ** The tokenizer against the specification's wording *)
(* ================================================================== *)

Module SpecTextFacts.
Import JsString Dedupe SpecText.

(** Away from the underscore, replacing what is not a letter or a digit is
    replacing what is neither a word character nor white space, up to the
    choice of the white-space character. *)
Lemma char_agree (c : ascii) :
  Ascii.eqb c "_"%char = false ->
  (if is_alphanumeric (lower_char c) then lower_char c else " "%char)
  = (fun c' => if is_space c' then " "%char else c')
      (if is_word (lower_char c) || is_space (lower_char c)
       then lower_char c else " "%char).
Proof.
  destruct c as [[] [] [] [] [] [] [] []]; intros H;
    try reflexivity; discriminate H.
Qed.

Lemma is_space_squash (c : ascii) :
  is_space (if is_space c then " "%char else c) = is_space c.
Proof. destruct (is_space c) eqn:E; [reflexivity | exact E]. Qed.

(** The split does not depend on which white-space characters separate. *)
Lemma split_ws_squash (s : string) :
  split_ws (map_chars (fun c => if is_space c then " "%char else c) s)
  = split_ws s.
Proof.
  induction s as [| c s IH]; trivial.
  cbn [map_chars split_ws]. rewrite is_space_squash.
  destruct (is_space c) eqn:Ec.
  - destruct s as [| c' s']; trivial.
    cbn [map_chars] in *. rewrite is_space_squash.
    destruct (is_space c'); now rewrite IH.
  - now rewrite IH.
Qed.

Lemma map_agree (s : string) :
  no_underscore s = true ->
  map_chars (fun c => if is_alphanumeric c then c else " "%char)
            (toLowerCase s)
  = map_chars (fun c => if is_space c then " "%char else c)
              (replace_punct (toLowerCase s)).
Proof.
  unfold replace_punct, toLowerCase.
  induction s as [| c s IH]; intros H; trivial.
  cbn [no_underscore] in H. apply andb_true_iff in H. destruct H as [Hc Hs].
  apply negb_true_iff in Hc.
  cbn [map_chars]. rewrite (IH Hs). f_equal. exact (char_agree c Hc).
Qed.

(** On a text without underscore the source's tokenizer gives the tokens of
    the specification. *)
Lemma normalize_agrees (text : string) :
  no_underscore text = true -> normalize text = normalizeToTokens text.
Proof.
  intros H. unfold normalize, normalizeToTokens.
  destruct text as [| c s]; [reflexivity |].
  cbn [truthy String.eqb negb].
  now rewrite (map_agree _ H), split_ws_squash.
Qed.

End SpecTextFacts.

(** On texts without underscore [areStepsSimilar] decides what the
    specification says: identical texts, or a similarity of the normalized
    texts strictly above 0.6. *)
Lemma areStepsSimilar_spec_without_underscore (text1 text2 : string) :
  SpecText.no_underscore text1 = true ->
  SpecText.no_underscore text2 = true ->
  (Dedupe.areStepsSimilar text1 text2 Dedupe.STEP_SIMILARITY_THRESHOLD = true
   <-> text1 = text2
       \/ (Dedupe.STEP_SIMILARITY_THRESHOLD
           < SpecText.similarity text1 text2)%Q).
Proof.
  intros H1 H2. unfold SpecText.similarity.
  rewrite (SpecTextFacts.normalize_agrees _ H1).
  rewrite (SpecTextFacts.normalize_agrees _ H2).
  apply areStepsSimilar_unfold.
Qed.

(** For a failure note without underscore [selectFallback] picks, among two
    or more candidates, the first one of highest score over the note tokens
    of the specification. *)
Lemma selectFallback_spec_without_underscore
      (currentArticle : Article.t) (allArticles : list Article.t)
      (reasonCategory : string) (failureNote : string) :
  SpecText.no_underscore failureNote = true ->
  2 <= List.length (Selection.candidates currentArticle reasonCategory) ->
  exists fb,
    StepRunner.selectFallback currentArticle allArticles reasonCategory
                              (Some failureNote)
    = StepRunner.SameArticle fb currentArticle
    /\ Selection.firstBest (SpecText.keywordScore failureNote)
                           (Selection.candidates currentArticle
                                                 reasonCategory) fb.
Proof.
  intros Hnote Hlen.
  destruct (selectFallback_same_article_first_best
              currentArticle allArticles reasonCategory (Some failureNote)
              Hlen) as [fb [Hsel [before [after [Heq [Hlt Hle]]]]]].
  assert (Hscore : forall g,
             Selection.keywordScore (Some failureNote) g
             = SpecText.keywordScore failureNote g).
  { intros g. unfold Selection.keywordScore, SpecText.keywordScore.
    replace (Selection.noteText (Some failureNote)) with failureNote
      by (now destruct failureNote).
    now rewrite (SpecTextFacts.normalize_agrees _ Hnote). }
  exists fb. split; [exact Hsel |]. exists before, after.
  split; [exact Heq |]. split; intros g Hg; rewrite <- !Hscore; auto.
Qed.

(** C6.  The texts "reset_password now" and "reset password now" are not
    identical and have the same normalized tokens (reset, password, now),
    so their similarity is 1, above 0.6; [normalizeToTokens] keeps the
    underscore, gives the first text the tokens reset_password and now, and
    [areStepsSimilar] answers false. *)
Theorem areStepsSimilar_underscore_joins_words :
  let a := "reset_password now" in
  let b := "reset password now" in
  a <> b
  /\ SpecText.normalize a = ["reset"; "password"; "now"]
  /\ SpecText.normalize b = ["reset"; "password"; "now"]
  /\ (Dedupe.STEP_SIMILARITY_THRESHOLD < SpecText.similarity a b)%Q
  /\ Dedupe.normalizeToTokens a = ["reset_password"; "now"]
  /\ Dedupe.normalizeToTokens b = ["reset"; "password"; "now"]
  /\ Dedupe.areStepsSimilar a b Dedupe.STEP_SIMILARITY_THRESHOLD = false.
Proof.
  cbv zeta. split; [discriminate |]. repeat split.
Qed.

(** C2.  Article [twoFallbacks] has two fallbacks of category
    "system-error", [fb-smtp] (keywords smtp, port) and [fb-quota]
    (keywords quota, space).  The note "smtp_port quota" has the tokens
    smtp, port and quota, which score the candidates 2 and 1;
    [normalizeToTokens] keeps the underscore, the overlaps computed are 0
    and 1, and [selectFallback] returns [fb-quota]. *)
Theorem selectFallback_underscore_note_misses_keywords :
  let note := "smtp_port quota" in
  let candidates := Selection.candidates Samples.twoFallbacks "system-error" in
  map Fallback.id candidates = ["fb-smtp"; "fb-quota"]
  /\ SpecText.normalize note = ["smtp"; "port"; "quota"]
  /\ map (SpecText.keywordScore note) candidates = [2; 1]
  /\ Dedupe.normalizeToTokens note = ["smtp_port"; "quota"]
  /\ map (fun fb =>
            Dedupe.calculateKeywordOverlap
              (or_nil (Fallback.trigger_keywords fb))
              (Dedupe.normalizeToTokens note)) candidates = [0; 1]
  /\ exists fb,
       StepRunner.selectFallback Samples.twoFallbacks [Samples.gmail]
                                 "system-error" (Some note)
       = StepRunner.SameArticle fb Samples.twoFallbacks
       /\ Fallback.id fb = "fb-quota".
Proof.
  cbv zeta. repeat split. eexists. split; reflexivity.
Qed.

(* ================================================================== *)
(** ** Switches that stay on the selected article *)
(* ================================================================== *)

Module SelectedFacts.
Import StepRunner Runs Histories.

Lemma staysOnSelected_resolves (corpus : list Article.t) (ops : list Op) :
  forall (st : State) (cur : option Article.t),
    match cur with
    | None => activePath st = "main"
    | Some x =>
        In x corpus
        /\ selectedArticleId st = Some (Article.id x)
        /\ (activePath st = "main" \/ In (activePath st) (fallbackIds x))
    end ->
    staysOnSelected corpus cur ops ->
    activePathResolves corpus (run ops st).
Proof.
  induction ops as [| op ops IH]; intros st cur HJ Hops.
  - simpl. destruct cur as [x |]; [| now left].
    destruct HJ as [Hin [Hsel [Hmain | Hfb]]]; [now left | right].
    unfold fallbackIds in Hfb. apply in_map_iff in Hfb.
    destruct Hfb as [fb [Hid Hfb]]. exists x, fb. tauto.
  - cbn [run fold_left]. fold (run ops (step st op)).
    destruct (RunnerFacts.step_path_article st op) as [Hs Hp].
    destruct op as [aid a now | a | | sid rc note now | fid a texts now];
      cbn [staysOnSelected] in Hops.
    + destruct Hops as [x [-> [-> [Hin Hrest]]]].
      apply (IH _ (Some x)); [| exact Hrest]. rewrite Hs, Hp. auto.
    + apply (IH _ cur); [| exact Hops].
      destruct cur as [x |]; rewrite ?Hs, ?Hp; exact HJ.
    + apply (IH _ cur); [| exact Hops].
      destruct cur as [x |]; rewrite ?Hs, ?Hp; exact HJ.
    + apply (IH _ cur); [| exact Hops].
      destruct cur as [x |]; rewrite ?Hs, ?Hp; exact HJ.
    + destruct Hops as [[x [-> Hfid]] Hrest].
      apply (IH _ (Some x)); [| exact Hrest]. rewrite Hs, Hp.
      destruct HJ as [Hin [Hsel _]]. auto.
Qed.

End SelectedFacts.

(** As long as every [startArticle] is given a corpus article under its own
    identifier and every [switchToFallback] names a fallback of the article
    started last, the active path is "main" or the identifier of a fallback
    of the selected article. *)
Lemma same_article_switches_resolve
      (corpus : list Article.t) (ops : list StepRunner.Op) :
  Histories.staysOnSelected corpus None ops ->
  Runs.activePathResolves corpus (StepRunner.run ops StepRunner.constructor).
Proof.
  intros H.
  apply (SelectedFacts.staysOnSelected_resolves corpus ops
           StepRunner.constructor None); trivial.
Qed.
